(** * The page-fault handler of userprog/exception.c

    A shallow embedding of [page_fault] and of its three helper functions
    ([exit_if_user_access_in_kernel], [write_on_nonwritable_page],
    [bring_esp_from_thread_struct]) together with [kill], followed by the
    properties of the fault-resolution protocol.

    The handler is written in a small state-and-stop monad: the state is the
    machine (fault counter, trap frame, virtual-memory bookkeeping of the
    current thread), and a computation stops early when the C code calls a
    function that does not return ([system_exit], [thread_exit], [PANIC]) or
    dereferences a null pointer. *)

From Stdlib Require Import ZArith Lia.
From stdpp Require Import base option list gmap strings pretty.

Local Open Scope Z_scope.

(** ** Platform constants

    The headers that define the address-space layout (threads/vaddr.h), the
    page-fault error-code bits (userprog/exception.h) and the segment
    selectors (userprog/gdt.h) are not part of the sources at hand, so their
    constants are parameters of the development. *)

Class Platform := {
  PHYS_BASE : Z;   (* first kernel virtual address, top of user space *)
  PGSIZE : Z;      (* bytes in a page *)
  PF_P : Z;        (* error code bit: 0 = not-present page, 1 = rights violation *)
  PF_W : Z;        (* error code bit: 0 = read, 1 = write *)
  PF_U : Z;        (* error code bit: 0 = kernel, 1 = user *)
  SEL_UCSEG : Z;   (* user code selector *)
  SEL_KCSEG : Z;   (* kernel code selector *)
}.

(** #define STACK_LIMIT 8 * 1024 * 1024
    The macro has no parentheses; at both uses it follows a binary minus,
    and multiplication binds tighter, so [PHYS_BASE - STACK_LIMIT] is
    [PHYS_BASE - (8 * 1024 * 1024)]. *)
Definition STACK_LIMIT : Z := 8 * 1024 * 1024.

(** Pointers are 32 bits wide (the handler reads the fault address with
    [movl %cr2]); pointer arithmetic wraps around. *)
Definition ptr_modulus : Z := 4294967296.

Definition ptr_sub (p n : Z) : Z := (p - n) mod ptr_modulus.
Definition ptr_add (p n : Z) : Z := (p + n) mod ptr_modulus.

(** What the layout has to satisfy for the arithmetic facts below: a page
    holds at least one 4-byte word, the stack limit spans two pages, user
    space ends on a page boundary, and it is large enough to hold a stack of
    [STACK_LIMIT] bytes. *)
Class PlatformOk (plat : Platform) : Prop := {
  PGSIZE_lo : 4 <= PGSIZE;
  PGSIZE_hi : 2 * PGSIZE <= STACK_LIMIT;
  PHYS_BASE_aligned : PHYS_BASE mod PGSIZE = 0;
  PHYS_BASE_lo : STACK_LIMIT <= PHYS_BASE;
  PHYS_BASE_hi : PHYS_BASE < ptr_modulus;
}.

(** The layout of Pintos on 32-bit x86, used for the concrete scenarios. *)
Definition pintos : Platform := {|
  PHYS_BASE := 3221225472;  (* 0xc0000000 *)
  PGSIZE := 4096;
  PF_P := 1;
  PF_W := 2;
  PF_U := 4;
  SEL_UCSEG := 27;          (* 0x1B *)
  SEL_KCSEG := 8;           (* 0x08 *)
|}.

(** ** Data *)

(** struct intr_frame, restricted to the members the handler reads or
    writes. *)
Record intr_frame := {
  error_code : Z;
  cs : Z;
  esp : Z;
}.

(** struct page (declared in vm/page.h): one supplemental page-table entry,
    with the members exception.c uses.  [file] is the [struct file *]
    member, [None] being the null pointer. *)
Record page := {
  upage : Z;
  writable : bool;
  loaded : bool;
  swaped : bool;
  file : option Z;
}.

(** struct frame (declared in vm/frame.h): [alloc_page] is the member the
    handler assigns; [zero_filled] records whether the frame was requested
    zeroed. *)
Record frame := {
  zero_filled : bool;
  alloc_page : option page;
}.

(** The virtual-memory state of the current thread, as far as the handler
    and its collaborators touch it. *)
Record vm := {
  spt : gmap Z page;               (* supplemental page table, by user page *)
  pagedir : gmap Z (Z * bool);     (* hardware mappings: upage -> (kpage, writable) *)
  frame_table : gmap Z frame;      (* frames handed out, by kernel page *)
  frame_supply : list (option Z);  (* what the next calls of frame_alloc return *)
  install_ok : Z -> bool;          (* whether install_page succeeds for a user page *)
  thread_esp : Z;                  (* thread_current()->esp *)
  malloc_junk : page;              (* contents of the next block malloc returns *)
}.

(** [page_fault_cnt] is a file-local [static], the trap frame is the object
    [f] points to. *)
Record machine := {
  page_fault_cnt : Z;
  tf : intr_frame;
  mem : vm;
}.

Definition set_cnt (c : Z) (m : machine) : machine :=
  {| page_fault_cnt := c; tf := tf m; mem := mem m |}.

Definition set_esp (e : Z) (m : machine) : machine :=
  {| page_fault_cnt := page_fault_cnt m;
     tf := {| error_code := error_code (tf m); cs := cs (tf m); esp := e |};
     mem := mem m |}.

Definition set_mem (w : vm) (m : machine) : machine :=
  {| page_fault_cnt := page_fault_cnt m; tf := tf m; mem := w |}.

(** ** The monad *)

(** The ways the handler leaves without returning to its caller. *)
Inductive stop :=
| Exited (status : Z)   (* system_exit (status) *)
| ThreadExit            (* thread_exit () reached through kill *)
| Panic                 (* PANIC reached through kill *)
| NullDeref             (* a null pointer was dereferenced *)
| OutOfFuel.            (* the loop model ran out of fuel *)

Inductive res (A : Type) :=
| Ret (a : A)
| Stop (o : stop).
Arguments Ret {A} a.
Arguments Stop {A} o.

Definition M (A : Type) : Type := machine -> res A * machine.

#[global] Instance M_ret : MRet M := fun A a m => (Ret a, m).

#[global] Instance M_bind : MBind M := fun A B k c m =>
  match c m with
  | (Ret a, m') => k a m'
  | (Stop o, m') => (Stop o, m')
  end.

Definition halt {A} (o : stop) : M A := fun m => (Stop o, m).
Definition get_frame : M intr_frame := fun m => (Ret (tf m), m).

(** A collaborator that works on the virtual-memory state alone. *)
Definition lift_vm {A} (c : vm -> A * vm) : M A := fun m =>
  let '(a, w) := c (mem m) in (Ret a, set_mem w m).

(** A computation keeps the trap frame, or is blind to the fault counter,
    when every run of it does. *)
Definition keeps_tf {A} (c : M A) : Prop :=
  forall m, tf (c m).2 = tf m.

Definition cnt_blind {A} (c : M A) : Prop :=
  forall k m, c (set_cnt k m) = ((c m).1, set_cnt k (c m).2).

(** A computation avoids a way of stopping when no run of it ends so. *)
Definition avoids {A} (o : stop) (c : M A) : Prop :=
  forall m, (c m).1 <> Stop o.

(** ** Collaborators *)

(** The backing-store loaders (vm/page.c, missing) are an interface: the
    handler only looks at the boolean they return.  They live in another
    translation unit, so they cannot see the file-local fault counter. *)
Class Loader := {
  page_load_swap : page -> vm -> bool * vm;
  page_load_file : page -> vm -> bool * vm;
}.

Section Handler.
Context {plat : Platform} {ldr : Loader}.

(** Modelled from the spec: threads/vaddr.h is missing; user space is the
    range below the kernel's reserved range, which starts at [PHYS_BASE]. *)
Definition is_user_vaddr (vaddr : Z) : bool := vaddr <? PHYS_BASE.

(** Modelled from the spec: threads/vaddr.h is missing; the kernel's
    reserved range is everything from [PHYS_BASE] up. *)
Definition is_kernel_vaddr (vaddr : Z) : bool := vaddr >=? PHYS_BASE.

(** Modelled from the spec: threads/vaddr.h is missing; the start of the
    page containing an address. *)
Definition pg_round_down (va : Z) : Z := va / PGSIZE * PGSIZE.

(** Modelled from the spec: userprog/syscall.c is missing;
    terminate(status_code) never returns to the faulting instruction. *)
Definition system_exit {A} (status : Z) : M A := halt (Exited status).

(** Modelled from the spec: vm/page.c is missing; the lookup finds the
    entry of the page that contains the address. *)
Definition ptable_lookup (addr : Z) : M (option page) := fun m =>
  (Ret (spt (mem m) !! pg_round_down addr), m).

(** Modelled from the spec: vm/page.c is missing; the insert is rejected if
    the page already has an entry. *)
Definition vm_insert (p : page) (w : vm) : bool * vm :=
  match spt w !! upage p with
  | Some _ => (false, w)
  | None =>
      (true,
       {| spt := <[upage p := p]> (spt w); pagedir := pagedir w;
          frame_table := frame_table w; frame_supply := frame_supply w;
          install_ok := install_ok w; thread_esp := thread_esp w;
          malloc_junk := malloc_junk w |})
  end.
Definition ptable_insert (p : page) : M bool := lift_vm (vm_insert p).

(** Modelled from the spec: vm/frame.c is missing;
    allocate_frame(zero_fill) -> FrameHandle | Failure.  The result is the
    head of [frame_supply]; an exhausted supply is a failure.  A frame that
    is handed out is entered into the frame table with no owner yet. *)
Definition vm_frame_alloc (zero_fill : bool) (w : vm) : option Z * vm :=
  match frame_supply w with
  | Some kpage :: rest =>
      (Some kpage,
       {| spt := spt w; pagedir := pagedir w;
          frame_table :=
            <[kpage := {| zero_filled := zero_fill; alloc_page := None |}]>
              (frame_table w);
          frame_supply := rest;
          install_ok := install_ok w; thread_esp := thread_esp w;
          malloc_junk := malloc_junk w |})
  | None :: rest =>
      (None,
       {| spt := spt w; pagedir := pagedir w; frame_table := frame_table w;
          frame_supply := rest;
          install_ok := install_ok w; thread_esp := thread_esp w;
          malloc_junk := malloc_junk w |})
  | [] => (None, w)
  end.
Definition frame_alloc (zero_fill : bool) : M (option Z) :=
  lift_vm (vm_frame_alloc zero_fill).

(** Modelled from the spec: userprog/process.c is missing;
    install_mapping(virtual_page, frame, writable) -> success|failure. *)
Definition vm_install_page (upg kpage : Z) (wr : bool) (w : vm) : bool * vm :=
  if install_ok w upg then
    (true,
     {| spt := spt w; pagedir := <[upg := (kpage, wr)]> (pagedir w);
        frame_table := frame_table w; frame_supply := frame_supply w;
        install_ok := install_ok w; thread_esp := thread_esp w;
        malloc_junk := malloc_junk w |})
  else (false, w).
Definition install_page (upg kpage : Z) (wr : bool) : M bool :=
  lift_vm (vm_install_page upg kpage wr).

(** [malloc (sizeof (struct page))]: the block is not initialised.  The
    handler uses the result without testing it; the allocation is taken to
    succeed. *)
Definition malloc_page : M page := fun m => (Ret (malloc_junk (mem m)), m).

(** Modelled from the spec: vm/frame.c is missing; the frame provider
    keeps, for each frame it handed out, the page descriptor that owns it.
    [frame_get_from_addr (kpage)->alloc_page = p] dereferences the result
    of the lookup without a null check. *)
Definition vm_set_alloc_page (kpage : Z) (p : page) (w : vm) : vm :=
  {| spt := spt w; pagedir := pagedir w;
     frame_table :=
       alter (fun fr => {| zero_filled := zero_filled fr; alloc_page := Some p |})
         kpage (frame_table w);
     frame_supply := frame_supply w;
     install_ok := install_ok w; thread_esp := thread_esp w;
     malloc_junk := malloc_junk w |}.
Definition frame_set_alloc_page (kpage : Z) (p : page) : M unit := fun m =>
  match frame_table (mem m) !! kpage with
  | Some _ => (Ret tt, set_mem (vm_set_alloc_page kpage p (mem m)) m)
  | None => (Stop NullDeref, m)
  end.


(** ** The handler *)

(** [page_fault_cnt] is a [long long]: 64 bits, signed. *)
Definition LLONG_MAX : Z := 9223372036854775807.
Definition wrap_ll (x : Z) : Z :=
  (x + (LLONG_MAX + 1)) mod (2 * (LLONG_MAX + 1)) - (LLONG_MAX + 1).

(** page_fault_cnt++; *)
Definition count_fault : M unit := fun m =>
  (Ret tt, set_cnt (wrap_ll (page_fault_cnt m + 1)) m).

(** The machine right after [page_fault_cnt++]. *)
Definition counted (m : machine) : machine :=
  set_cnt (wrap_ll (page_fault_cnt m + 1)) m.

(** The three causes decoded from the error code:
    not_present = (f->error_code & PF_P) == 0, and so on. *)
Definition not_present (f : intr_frame) : bool := Z.land (error_code f) PF_P =? 0.
Definition write (f : intr_frame) : bool := negb (Z.land (error_code f) PF_W =? 0).
Definition user (f : intr_frame) : bool := negb (Z.land (error_code f) PF_U =? 0).

(** static void kill (struct intr_frame *f): every case of the switch ends
    in a call that does not return. *)
Definition kill {A} : M A := fun m =>
  if cs (tf m) =? SEL_UCSEG then (Stop ThreadExit, m)
  else if cs (tf m) =? SEL_KCSEG then (Stop Panic, m)
  else (Stop ThreadExit, m).

Definition exit_if_user_access_in_kernel (fault_addr : Z) (user : bool) : M unit :=
  if is_kernel_vaddr fault_addr && user then system_exit (-1) else mret tt.

Definition bring_esp_from_thread_struct (user not_present : bool) : M unit := fun m =>
  if negb user && not_present && (esp (tf m) <=? ptr_sub PHYS_BASE STACK_LIMIT)
  then (Ret tt, set_esp (thread_esp (mem m)) m)
  else (Ret tt, m).

Definition write_on_nonwritable_page (fault_addr : Z) (not_present write : bool) : M unit :=
  if is_user_vaddr fault_addr && negb not_present && write then
    pg ← ptable_lookup fault_addr;
    match pg with
    | None => halt NullDeref
    | Some pg => if negb (writable pg) then system_exit (-1) else mret tt
    end
  else mret tt.

(** The body of the [while] loop that grows the stack, iterated.  [fuel]
    bounds the number of iterations; [stack_walk_fuel] below is what the
    handler passes, and [stack_walk_total] shows it is never exhausted. *)
Fixpoint stack_walk (fuel : nat) (stack_page_addr : Z) (success : bool) : M bool :=
  if stack_page_addr <? ptr_sub PHYS_BASE PGSIZE then
    match fuel with
    | O => halt OutOfFuel
    | S fuel =>
        found ← ptable_lookup stack_page_addr;
        match found with
        | Some _ => stack_walk fuel (ptr_add stack_page_addr PGSIZE) success
        | None =>
            tmp_kpage ← frame_alloc true;
            success ←
              match tmp_kpage with
              | Some tmp_kpage =>
                  success ← install_page stack_page_addr tmp_kpage true;
                  if (success : bool) then
                    blk ← malloc_page;
                    let s_page :=
                      {| upage := stack_page_addr; writable := true;
                         loaded := true; swaped := swaped blk; file := None |} in
                    frame_set_alloc_page tmp_kpage s_page;;
                    inserted ← ptable_insert s_page;
                    mret (if (inserted : bool) then success else false)
                  else mret success
              | None => mret success
              end;
            stack_walk fuel (ptr_add stack_page_addr PGSIZE) success
        end
    end
  else mret success.

Definition stack_walk_fuel (stack_page_addr : Z) : nat :=
  Z.to_nat ((PHYS_BASE - stack_page_addr) / PGSIZE).

(** The three blocks of [page_fault] that follow the helper calls: the
    branch for a page without an entry (lines 209-244), the whole
    [if (is_user_vaddr (fault_addr) && not_present)] statement (lines
    191-246), and the final [if (!success)] (lines 251-259). *)
Definition stack_growth (fault_addr : Z) (success : bool) : M bool :=
  f ← get_frame;
  if (fault_addr >=? ptr_sub (esp f) 32)
     && (fault_addr >=? ptr_sub PHYS_BASE STACK_LIMIT)
  then
    let stack_page_addr := pg_round_down fault_addr in
    stack_walk (stack_walk_fuel stack_page_addr) stack_page_addr success
  else system_exit (-1).

Definition resolve (fault_addr : Z) (not_present success : bool) : M bool :=
  if is_user_vaddr fault_addr && not_present then
    pg ← ptable_lookup fault_addr;
    match pg with
    | Some pg =>
        if negb (loaded pg) then
          if swaped pg then lift_vm (page_load_swap pg)
          else lift_vm (page_load_file pg)
        else mret success
    | None => stack_growth fault_addr success
    end
  else mret success.

Definition report (success : bool) : M unit :=
  if negb success then kill else mret tt.

(** static void page_fault (struct intr_frame *f); [cr2] is the content of
    the control register the handler reads the fault address from. *)
Definition page_fault (cr2 : Z) : M unit :=
  let fault_addr := cr2 in
  let success := false in
  count_fault;;
  f ← get_frame;
  let not_present := not_present f in
  let write := write f in
  let user := user f in
  exit_if_user_access_in_kernel fault_addr user;;
  write_on_nonwritable_page fault_addr not_present write;;
  bring_esp_from_thread_struct user not_present;;
  success ← resolve fault_addr not_present success;
  report success.

End Handler.

(** ** The growth walk as the specification words it

    "Starting at the page containing the fault address, walk downward
    (toward lower addresses) page by page until reaching the topmost
    already-mapped stack page (exclusive) or the growth ceiling."  The
    ceiling is the end of the maximum stack, [PHYS_BASE - STACK_LIMIT]. *)
Fixpoint spec_walk_down {plat : Platform} (n : nat) (pg : Z) (entries : gmap Z page)
  : list Z :=
  match n with
  | O => []
  | S n =>
      if pg <? PHYS_BASE - STACK_LIMIT then []
      else
        match entries !! pg with
        | Some _ => []
        | None => pg :: spec_walk_down n (pg - PGSIZE) entries
        end
  end.

Definition spec_walk {plat : Platform} (fault_addr : Z) (entries : gmap Z page)
  : list Z :=
  spec_walk_down (Z.to_nat (STACK_LIMIT / PGSIZE)) (pg_round_down fault_addr) entries.

(** What the specification promises for the pages of that walk: each one
    that had no entry has, afterwards, a resident, writable entry without a
    file. *)
Definition spec_growth {plat : Platform} (fault_addr : Z) (before after : vm) : Prop :=
  forall pg, pg ∈ spec_walk fault_addr (spt before) ->
    spt before !! pg = None ->
    exists e, spt after !! pg = Some e
              /\ loaded e = true /\ writable e = true /\ file e = None.

(** ** The effect of the growth loop

    The entry the loop builds for a page, the state after one page has been
    grown with a given frame, and the relation between the state before and
    after a whole walk that starts at page [a]. *)
Definition new_entry (pg : Z) (w : vm) : page :=
  {| upage := pg; writable := true; loaded := true;
     swaped := swaped (malloc_junk w); file := None |}.

Definition grown (pg kpage : Z) (w : vm) : vm :=
  {| spt := <[pg := new_entry pg w]> (spt w);
     pagedir := <[pg := (kpage, true)]> (pagedir w);
     frame_table :=
       <[kpage := {| zero_filled := true; alloc_page := Some (new_entry pg w) |}]>
         (frame_table w);
     frame_supply := tail (frame_supply w);
     install_ok := install_ok w; thread_esp := thread_esp w;
     malloc_junk := malloc_junk w |}.

Definition zeroed (kpage : Z) (w : vm) : Prop :=
  exists fr, frame_table w !! kpage = Some fr /\ zero_filled fr = true.

Definition on_walk {plat : Platform} (a pg : Z) : Prop :=
  a <= pg < PHYS_BASE - PGSIZE /\ (PGSIZE | pg).

Definition walk_effect {plat : Platform} (a : Z) (w w' : vm) : Prop :=
  (forall q, ~ on_walk a q ->
     spt w' !! q = spt w !! q /\ pagedir w' !! q = pagedir w !! q)
  /\ (forall pg, on_walk a pg ->
       match spt w !! pg with
       | Some e => spt w' !! pg = Some e /\ pagedir w' !! pg = pagedir w !! pg
       | None =>
           spt w' !! pg = Some (new_entry pg w)
           /\ exists kpage, Some kpage ∈ frame_supply w
                /\ pagedir w' !! pg = Some (kpage, true)
                /\ zeroed kpage w'
       end)
  /\ (forall kpage, zeroed kpage w -> zeroed kpage w')
  /\ malloc_junk w' = malloc_junk w
  /\ install_ok w' = install_ok w
  /\ thread_esp w' = thread_esp w.

(** The number of pages from the page of [fault_addr] up to, and without,
    the top stack page. *)
Definition walk_length {plat : Platform} (fault_addr : Z) : nat :=
  Z.to_nat ((PHYS_BASE - PGSIZE - pg_round_down fault_addr) / PGSIZE).

(** ** The growth loop, one page at a time

    The four ways through the body of the [while] loop at page [a], with
    the state and the [success] flag before and after: the page has an
    entry ([continue]); [frame_alloc] returns NULL; [install_page] fails;
    everything succeeds. *)
Inductive page_step (a : Z) : vm -> bool -> vm -> bool -> Prop :=
| step_present w s e :
    spt w !! a = Some e -> page_step a w s w s
| step_no_frame w s :
    spt w !! a = None -> (vm_frame_alloc true w).1 = None ->
    page_step a w s (vm_frame_alloc true w).2 s
| step_refused w s kpage rest :
    spt w !! a = None -> frame_supply w = Some kpage :: rest ->
    install_ok w a = false ->
    page_step a w s (vm_frame_alloc true w).2 false
| step_grown w s kpage rest :
    spt w !! a = None -> frame_supply w = Some kpage :: rest ->
    install_ok w a = true ->
    page_step a w s (grown a kpage w) true.

(** The whole loop from page [a]: steps until the top stack page. *)
Inductive walked {plat : Platform} : Z -> vm -> bool -> vm -> bool -> Prop :=
| walked_done a w s :
    ~ a < PHYS_BASE - PGSIZE -> walked a w s w s
| walked_step a w s w1 s1 w' s' :
    a < PHYS_BASE - PGSIZE ->
    page_step a w s w1 s1 ->
    walked (a + PGSIZE) w1 s1 w' s' ->
    walked a w s w' s'.

(** What a walk from page [a] may do to the page table and the mappings,
    whatever the collaborators answer: entries stay, a new entry is the
    one the loop builds for a page of the walk and comes with a writable
    mapping, and mappings of other pages stay. *)
Definition grows_only {plat : Platform} (a : Z) (w w' : vm) : Prop :=
  (forall pg e, spt w !! pg = Some e -> spt w' !! pg = Some e)
  /\ (forall pg e, spt w !! pg = None -> spt w' !! pg = Some e ->
        e = new_entry pg w /\ on_walk a pg
        /\ exists kpage, pagedir w' !! pg = Some (kpage, true))
  /\ (forall q, ~ on_walk a q -> pagedir w' !! q = pagedir w !! q)
  /\ malloc_junk w' = malloc_junk w.

(** A frame that was handed out zero-filled and has no owner. *)
Definition ownerless (kpage : Z) (w : vm) : Prop :=
  frame_table w !! kpage = Some {| zero_filled := true; alloc_page := None |}.

(** ** The rest of exception.c *)

(** The arguments of one call of [intr_register_int]: vector, descriptor
    privilege level, interrupt level the handler is entered with, handler,
    name.  The two handlers exception.c registers are its static functions
    [kill] and [page_fault]. *)
Inductive intr_level := INTR_OFF | INTR_ON.
Inductive handler_func := handler_kill | handler_page_fault.

Record registration := {
  vec_no : Z;
  dpl : Z;
  level : intr_level;
  handler : handler_func;
  name : string;
}.

Definition intr_register_int (vec_no dpl : Z) (level : intr_level)
    (handler : handler_func) (name : string) : registration :=
  {| vec_no := vec_no; dpl := dpl; level := level; handler := handler;
     name := name |}.

(** void exception_init (void): the registrations it makes, in order. *)
Definition exception_init : list registration := [
  intr_register_int 3 3 INTR_ON handler_kill "#BP Breakpoint Exception";
  intr_register_int 4 3 INTR_ON handler_kill "#OF Overflow Exception";
  intr_register_int 5 3 INTR_ON handler_kill "#BR BOUND Range Exceeded Exception";
  intr_register_int 0 0 INTR_ON handler_kill "#DE Divide Error";
  intr_register_int 1 0 INTR_ON handler_kill "#DB Debug Exception";
  intr_register_int 6 0 INTR_ON handler_kill "#UD Invalid Opcode Exception";
  intr_register_int 7 0 INTR_ON handler_kill "#NM Device Not Available Exception";
  intr_register_int 11 0 INTR_ON handler_kill "#NP Segment Not Present";
  intr_register_int 12 0 INTR_ON handler_kill "#SS Stack Fault Exception";
  intr_register_int 13 0 INTR_ON handler_kill "#GP General Protection Exception";
  intr_register_int 16 0 INTR_ON handler_kill "#MF x87 FPU Floating-Point Error";
  intr_register_int 19 0 INTR_ON handler_kill "#XF SIMD Floating-Point Exception";
  intr_register_int 14 0 INTR_OFF handler_page_fault "#PF Page-Fault Exception"
].

(** Calling a registered handler on the trap frame of the machine; [cr2]
    is what the page-fault handler finds in the control register. *)
Definition run_handler {plat : Platform} {ldr : Loader}
    (h : handler_func) (cr2 : Z) : M unit :=
  match h with
  | handler_kill => kill
  | handler_page_fault => page_fault cr2
  end.

(** void exception_print_stats (void): the line it prints,
    printf ("Exception: %lld page faults\n", page_fault_cnt). *)
Definition exception_print_stats (m : machine) : string :=
  "Exception: " +:+ pretty (page_fault_cnt m) +:+ " page faults"
  +:+ String (Ascii.ascii_of_nat 10) EmptyString.

(** The trap path over a series of page faults: each fault arrives with its
    fault address and its own trap frame, and the handler runs on the
    machine the previous fault left; the counter is a static of the kernel
    and outlives the faulting processes. *)
Definition set_tf (f : intr_frame) (m : machine) : machine :=
  {| page_fault_cnt := page_fault_cnt m; tf := f; mem := mem m |}.

Fixpoint handle_faults {plat : Platform} {ldr : Loader}
    (faults : list (Z * intr_frame)) (m : machine) : machine :=
  match faults with
  | [] => m
  | (cr2, f) :: rest => handle_faults rest (page_fault cr2 (set_tf f m)).2
  end.

(** ** Concrete scenarios *)

(** Modelled from the spec: vm/page.c is missing; on loader success the
    entry is marked resident. *)
Definition vm_mark_loaded (p : page) (w : vm) : vm :=
  {| spt :=
       <[upage p := {| upage := upage p; writable := writable p; loaded := true;
                       swaped := swaped p; file := file p |}]> (spt w);
     pagedir := pagedir w; frame_table := frame_table w;
     frame_supply := frame_supply w; install_ok := install_ok w;
     thread_esp := thread_esp w; malloc_junk := malloc_junk w |}.

(** An entry once its page is resident. *)
Definition resident (p : page) : page :=
  {| upage := upage p; writable := writable p; loaded := true;
     swaped := swaped p; file := file p |}.

(** Modelled from the spec: vm/page.c is missing; a load acquires a frame
    from the frame provider and fills it from the backing store, installs
    the mapping with the entry's [writable] flag once the content is there,
    and on success marks the entry resident and sets the owning frame; it
    fails when the provider has no frame or the mapping cannot be
    installed. *)
Definition vm_load (zero_fill : bool) (p : page) (w : vm) : bool * vm :=
  match vm_frame_alloc zero_fill w with
  | (Some kpage, w1) =>
      match vm_install_page (upage p) kpage (writable p) w1 with
      | (true, w2) =>
          (true, vm_mark_loaded p (vm_set_alloc_page kpage (resident p) w2))
      | (false, w2) => (false, w2)
      end
  | (None, w1) => (false, w1)
  end.

(** Modelled from the spec: vm/page.c is missing; the loader per backing
    variant: Swap reads the page back from its slot, File reads from the
    file (zero-filling the remainder), ZeroFill, an entry without a file,
    allocates a zeroed frame. *)
Definition scenario_loader : Loader := {|
  page_load_swap := vm_load false;
  page_load_file := fun p =>
    vm_load (match file p with Some _ => false | None => true end) p;
|}.

(** What the scenarios find in a block fresh from malloc. *)
Definition junk_page : page :=
  {| upage := 0; writable := false; loaded := false; swaped := true;
     file := Some 0 |}.

(** A thread with the given page-table entries and frame supply, nothing
    mapped, and an installer that never fails. *)
Definition scenario_vm (entries : gmap Z page) (supply : list (option Z)) : vm :=
  {| spt := entries; pagedir := ∅; frame_table := ∅;
     frame_supply := supply; install_ok := fun _ => true;
     thread_esp := 3221225472; malloc_junk := junk_page |}.

(** The same thread with an installer that refuses every mapping. *)
Definition refusing_vm (entries : gmap Z page) (supply : list (option Z)) : vm :=
  {| spt := entries; pagedir := ∅; frame_table := ∅;
     frame_supply := supply; install_ok := fun _ => false;
     thread_esp := 3221225472; malloc_junk := junk_page |}.

(** A trap frame from user code with the given error code and stack
    pointer, on a machine that has counted no fault yet. *)
Definition scenario (code sp : Z) (w : vm) : machine :=
  {| page_fault_cnt := 0;
     tf := {| error_code := code; cs := 27; esp := sp |};
     mem := w |}.

(** The same from kernel code. *)
Definition kernel_scenario (code sp : Z) (w : vm) : machine :=
  {| page_fault_cnt := 0;
     tf := {| error_code := code; cs := 8; esp := sp |};
     mem := w |}.

(** The top of the user stack and the size of a page on Pintos. *)
Definition stack_top : Z := 3221225472.
Definition page_bytes : Z := 4096.

(** The handler on the Pintos layout with the scenario loader. *)
Definition pintos_page_fault : Z -> M unit :=
  @page_fault pintos scenario_loader.

(** An entry for a stack page, as process start-up leaves the top one. *)
Definition stack_entry (pg : Z) : page :=
  {| upage := pg; writable := true; loaded := true; swaped := false;
     file := None |}.

(** An entry that is not resident, not swapped out and has no file. *)
Definition zero_fill_entry (pg : Z) : page :=
  {| upage := pg; writable := true; loaded := false; swaped := false;
     file := None |}.

(** An entry for a resident page of read-only file data. *)
Definition read_only_entry (pg : Z) : page :=
  {| upage := pg; writable := false; loaded := true; swaped := false;
     file := Some 3 |}.

(** ** Running the monad *)

Lemma bind_run {A B} (c : M A) (k : A -> M B) (m : machine) :
  (c ≫= k) m =
  match c m with
  | (Ret a, m') => k a m'
  | (Stop o, m') => (Stop o, m')
  end.
Proof. reflexivity. Qed.

Lemma bind_ret {A B} (c : M A) (k : A -> M B) (m m' : machine) (a : A) :
  c m = (Ret a, m') -> (c ≫= k) m = k a m'.
Proof. intros E. rewrite bind_run, E. reflexivity. Qed.

Lemma bind_stop {A B} (c : M A) (k : A -> M B) (m m' : machine) (o : stop) :
  c m = (Stop o, m') -> (c ≫= k) m = (Stop o, m').
Proof. intros E. rewrite bind_run, E. reflexivity. Qed.

Lemma keeps_tf_bind {A B} (c : M A) (k : A -> M B) :
  keeps_tf c -> (forall a, keeps_tf (k a)) -> keeps_tf (c ≫= k).
Proof.
  intros Hc Hk m. rewrite bind_run. specialize (Hc m).
  destruct (c m) as [[a|o] m']; simpl in *; [|assumption].
  rewrite Hk. assumption.
Qed.

Lemma cnt_blind_bind {A B} (c : M A) (k : A -> M B) :
  cnt_blind c -> (forall a, cnt_blind (k a)) -> cnt_blind (c ≫= k).
Proof.
  intros Hc Hk n m. rewrite !bind_run, Hc.
  destruct (c m) as [[a|o] m']; simpl; [apply Hk | reflexivity].
Qed.

Lemma keeps_tf_ret {A} (a : A) : keeps_tf (mret a).
Proof. intros m. reflexivity. Qed.

Lemma cnt_blind_ret {A} (a : A) : cnt_blind (mret a).
Proof. intros k m. reflexivity. Qed.

Lemma keeps_tf_halt {A} (o : stop) : keeps_tf (@halt A o).
Proof. intros m. reflexivity. Qed.

Lemma cnt_blind_halt {A} (o : stop) : cnt_blind (@halt A o).
Proof. intros k m. reflexivity. Qed.

Lemma keeps_tf_lift {A} (c : vm -> A * vm) : keeps_tf (lift_vm c).
Proof. intros m. unfold lift_vm. destruct (c (mem m)). reflexivity. Qed.

Lemma cnt_blind_lift {A} (c : vm -> A * vm) : cnt_blind (lift_vm c).
Proof. intros k m. unfold lift_vm. simpl. destruct (c (mem m)). reflexivity. Qed.

Lemma keeps_tf_get_frame : keeps_tf get_frame.
Proof. intros m. reflexivity. Qed.

Lemma cnt_blind_get_frame : cnt_blind get_frame.
Proof. intros k m. reflexivity. Qed.

Lemma keeps_tf_malloc : keeps_tf malloc_page.
Proof. intros m. reflexivity. Qed.

Lemma cnt_blind_malloc : cnt_blind malloc_page.
Proof. intros k m. reflexivity. Qed.

Lemma keeps_tf_set_alloc kpage p : keeps_tf (frame_set_alloc_page kpage p).
Proof.
  intros m. unfold frame_set_alloc_page.
  destruct (frame_table (mem m) !! kpage); reflexivity.
Qed.

Lemma cnt_blind_set_alloc kpage p : cnt_blind (frame_set_alloc_page kpage p).
Proof.
  intros k m. unfold frame_set_alloc_page. simpl.
  destruct (frame_table (mem m) !! kpage); reflexivity.
Qed.

Create HintDb handler discriminated.

#[local] Hint Resolve keeps_tf_ret keeps_tf_halt keeps_tf_lift keeps_tf_get_frame
  keeps_tf_malloc keeps_tf_set_alloc : handler.
#[local] Hint Resolve cnt_blind_ret cnt_blind_halt cnt_blind_lift cnt_blind_get_frame
  cnt_blind_malloc cnt_blind_set_alloc : handler.

Section HandlerFacts.
Context {plat : Platform} {ldr : Loader}.

Lemma keeps_tf_lookup addr : keeps_tf (ptable_lookup addr).
Proof. intros m. reflexivity. Qed.

Lemma cnt_blind_lookup addr : cnt_blind (ptable_lookup addr).
Proof. intros k m. reflexivity. Qed.

Lemma keeps_tf_kill {A} : keeps_tf (@kill _ A).
Proof.
  intros m. unfold kill.
  destruct (cs (tf m) =? SEL_UCSEG), (cs (tf m) =? SEL_KCSEG); reflexivity.
Qed.

Lemma cnt_blind_kill {A} : cnt_blind (@kill _ A).
Proof.
  intros k m. unfold kill. simpl.
  destruct (cs (tf m) =? SEL_UCSEG), (cs (tf m) =? SEL_KCSEG); reflexivity.
Qed.

Lemma cnt_blind_bring_esp u np : cnt_blind (bring_esp_from_thread_struct u np).
Proof.
  intros k m. unfold bring_esp_from_thread_struct. simpl.
  destruct (negb u && np && (esp (tf m) <=? ptr_sub PHYS_BASE STACK_LIMIT));
    reflexivity.
Qed.

(** One step of the proofs that walk through a computation: split a bind,
    close a leaf with the hint base, or split on what a branch inspects. *)
Ltac walk_through :=
  repeat first
    [ progress intros
    | apply keeps_tf_bind | apply cnt_blind_bind
    | apply keeps_tf_lookup | apply cnt_blind_lookup
    | apply keeps_tf_kill | apply cnt_blind_kill
    | solve [ unfold system_exit, frame_alloc, install_page, ptable_insert;
              auto with handler ]
    | match goal with
      | |- context [ match ?x with _ => _ end ] => destruct x
      end ].

Lemma keeps_tf_stack_walk fuel : forall addr success,
  keeps_tf (stack_walk fuel addr success).
Proof.
  induction fuel as [|fuel IH]; intros addr success; simpl;
    destruct (addr <? ptr_sub PHYS_BASE PGSIZE); auto with handler.
  walk_through; apply IH.
Qed.

Lemma cnt_blind_stack_walk fuel : forall addr success,
  cnt_blind (stack_walk fuel addr success).
Proof.
  induction fuel as [|fuel IH]; intros addr success; simpl;
    destruct (addr <? ptr_sub PHYS_BASE PGSIZE); auto with handler.
  walk_through; apply IH.
Qed.

Lemma geb_false_lt (a b : Z) : a < b -> (a >=? b) = false.
Proof. intros L. rewrite Z.geb_leb. apply Z.leb_gt. assumption. Qed.

Lemma geb_true_le (a b : Z) : b <= a -> (a >=? b) = true.
Proof. intros L. rewrite Z.geb_leb. apply Z.leb_le. assumption. Qed.

Lemma exit_check_passes cr2 u m :
  is_kernel_vaddr cr2 && u = false ->
  exit_if_user_access_in_kernel cr2 u m = (Ret tt, m).
Proof. intros E. unfold exit_if_user_access_in_kernel. rewrite E. reflexivity. Qed.

Lemma write_check_skipped cr2 np wr m :
  is_user_vaddr cr2 && negb np && wr = false ->
  write_on_nonwritable_page cr2 np wr m = (Ret tt, m).
Proof. intros E. unfold write_on_nonwritable_page. rewrite E. reflexivity. Qed.

(** ** The checks ahead of the resolution *)


Lemma page_fault_run cr2 m :
  page_fault cr2 m =
  (exit_if_user_access_in_kernel cr2 (user (tf m));;
   write_on_nonwritable_page cr2 (not_present (tf m)) (write (tf m));;
   bring_esp_from_thread_struct (user (tf m)) (not_present (tf m));;
   resolve cr2 (not_present (tf m)) false ≫= report) (counted m).
Proof. reflexivity. Qed.

Lemma ret_run {A} (a : A) (m : machine) : (mret a : M A) m = (Ret a, m).
Proof. reflexivity. Qed.

Lemma exit_check_fires cr2 m :
  PHYS_BASE <= cr2 ->
  exit_if_user_access_in_kernel cr2 true m = (Stop (Exited (-1)), m).
Proof.
  intros Hk. unfold exit_if_user_access_in_kernel, is_kernel_vaddr.
  rewrite geb_true_le by assumption. reflexivity.
Qed.

Lemma user_addr_not_kernel cr2 u :
  cr2 < PHYS_BASE -> is_kernel_vaddr cr2 && u = false.
Proof.
  intros L. unfold is_kernel_vaddr. rewrite geb_false_lt by assumption.
  reflexivity.
Qed.

Lemma is_user_vaddr_lt cr2 : cr2 < PHYS_BASE -> is_user_vaddr cr2 = true.
Proof. intros L. apply Z.ltb_lt. assumption. Qed.

(** C1: a user-context fault on an address at or above PHYS_BASE ends in
    system_exit (-1): the handler does not return, and apart from the
    counted fault the machine is as it was, so the supplemental page table
    (like the rest of the virtual-memory state) is neither read into a
    decision nor changed. *)
Theorem user_fault_in_kernel_range (cr2 : Z) (m : machine) :
  user (tf m) = true ->
  PHYS_BASE <= cr2 ->
  page_fault cr2 m = (Stop (Exited (-1)), counted m)
  /\ spt (mem (page_fault cr2 m).2) = spt (mem m)
  /\ mem (page_fault cr2 m).2 = mem m.
Proof.
  intros Hu Hk.
  assert (E : page_fault cr2 m = (Stop (Exited (-1)), counted m)).
  { rewrite page_fault_run, Hu. apply bind_stop, exit_check_fires, Hk. }
  rewrite E. auto.
Qed.

(** C6: a write to a present page of user space whose entry in the
    supplemental page table is not writable ends in system_exit (-1). *)
Theorem write_to_read_only_page (cr2 : Z) (m : machine) (pg : page) :
  cr2 < PHYS_BASE ->
  not_present (tf m) = false ->
  write (tf m) = true ->
  spt (mem m) !! pg_round_down cr2 = Some pg ->
  writable pg = false ->
  page_fault cr2 m = (Stop (Exited (-1)), counted m).
Proof.
  intros Hu Hp Hw Hpg Hro.
  rewrite page_fault_run, Hp, Hw.
  rewrite (bind_ret _ _ _ (counted m) tt)
    by (apply exit_check_passes, user_addr_not_kernel, Hu).
  apply bind_stop.
  unfold write_on_nonwritable_page. rewrite is_user_vaddr_lt by assumption.
  cbn [negb andb].
  rewrite (bind_ret _ _ _ (counted m) (Some pg))
    by (unfold ptable_lookup; change (mem (counted m)) with (mem m);
        rewrite Hpg; reflexivity).
  rewrite Hro. reflexivity.
Qed.

(** C10: the write-protection check uses the result of the lookup without
    testing it.  For a write to a present page of user space, the
    dereference goes through when the page has an entry (the check then
    returns or exits on the entry's [writable] flag); when the page has no
    entry, the check, and with it the handler, dereferences a null
    pointer. *)
Theorem write_check_dereference (cr2 : Z) (m : machine) :
  cr2 < PHYS_BASE ->
  not_present (tf m) = false ->
  write (tf m) = true ->
  (forall pg, spt (mem m) !! pg_round_down cr2 = Some pg ->
     write_on_nonwritable_page cr2 (not_present (tf m)) (write (tf m)) m =
       ((if writable pg then Ret tt else Stop (Exited (-1))), m)
     /\ (page_fault cr2 m).1 <> Stop NullDeref)
  /\ (spt (mem m) !! pg_round_down cr2 = None ->
     write_on_nonwritable_page cr2 (not_present (tf m)) (write (tf m)) m =
       (Stop NullDeref, m)
     /\ page_fault cr2 m = (Stop NullDeref, counted m)).
Proof.
  intros Hu Hp Hw.
  assert (Hchk : forall m', mem m' = mem m ->
    write_on_nonwritable_page cr2 false true m' =
    match spt (mem m) !! pg_round_down cr2 with
    | Some pg => ((if writable pg then Ret tt else Stop (Exited (-1))), m')
    | None => (Stop NullDeref, m')
    end).
  { intros m' Em. unfold write_on_nonwritable_page.
    rewrite is_user_vaddr_lt by assumption. cbn [negb andb].
    rewrite bind_run. unfold ptable_lookup. rewrite Em.
    destruct (spt (mem m) !! pg_round_down cr2) as [pg|]; [|reflexivity].
    destruct (writable pg); reflexivity. }
  rewrite Hp, Hw. split.
  - intros pg Hpg. split.
    + rewrite Hchk, Hpg; reflexivity.
    + rewrite page_fault_run, Hp, Hw.
      rewrite (bind_ret _ _ _ (counted m) tt)
        by (apply exit_check_passes, user_addr_not_kernel, Hu).
      rewrite bind_run, (Hchk (counted m)), Hpg by reflexivity.
      destruct (writable pg); [|discriminate].
      rewrite bind_run. unfold bring_esp_from_thread_struct.
      rewrite andb_false_r. cbn [andb]. cbv beta iota.
      unfold resolve. rewrite andb_false_r. rewrite bind_run.
      rewrite ret_run. unfold report, kill. cbn [negb].
      destruct (cs (tf (counted m)) =? SEL_UCSEG),
               (cs (tf (counted m)) =? SEL_KCSEG); discriminate.
  - intros Hpg. split.
    + rewrite Hchk, Hpg; reflexivity.
    + rewrite page_fault_run, Hp, Hw.
      rewrite (bind_ret _ _ _ (counted m) tt)
        by (apply exit_check_passes, user_addr_not_kernel, Hu).
      apply bind_stop. rewrite (Hchk (counted m)), Hpg; reflexivity.
Qed.


(** ** What the handler leaves alone *)


Ltac walk_blocks :=
  repeat first
    [ apply keeps_tf_stack_walk | apply cnt_blind_stack_walk
    | progress walk_through ].

Lemma keeps_tf_exit_check cr2 u : keeps_tf (exit_if_user_access_in_kernel cr2 u).
Proof. unfold exit_if_user_access_in_kernel. walk_blocks. Qed.

Lemma cnt_blind_exit_check cr2 u : cnt_blind (exit_if_user_access_in_kernel cr2 u).
Proof. unfold exit_if_user_access_in_kernel. walk_blocks. Qed.

Lemma keeps_tf_write_check cr2 np wr : keeps_tf (write_on_nonwritable_page cr2 np wr).
Proof. unfold write_on_nonwritable_page. walk_blocks. Qed.

Lemma cnt_blind_write_check cr2 np wr : cnt_blind (write_on_nonwritable_page cr2 np wr).
Proof. unfold write_on_nonwritable_page. walk_blocks. Qed.

Lemma keeps_tf_resolve cr2 np s : keeps_tf (resolve cr2 np s).
Proof. unfold resolve, stack_growth. walk_blocks. Qed.

Lemma cnt_blind_resolve cr2 np s : cnt_blind (resolve cr2 np s).
Proof. unfold resolve, stack_growth. walk_blocks. Qed.

Lemma keeps_tf_report s : keeps_tf (report s).
Proof. unfold report. walk_blocks. Qed.

Lemma cnt_blind_report s : cnt_blind (report s).
Proof. unfold report. walk_blocks. Qed.

Lemma keeps_tf_bring_user np : keeps_tf (bring_esp_from_thread_struct true np).
Proof. intros m. reflexivity. Qed.

Lemma keeps_tf_bring_present u : keeps_tf (bring_esp_from_thread_struct u false).
Proof.
  intros m. unfold bring_esp_from_thread_struct. rewrite andb_false_r.
  reflexivity.
Qed.

(** Everything the handler does after counting the fault. *)
Lemma cnt_blind_after_count cr2 f :
  cnt_blind
    (exit_if_user_access_in_kernel cr2 (user f);;
     write_on_nonwritable_page cr2 (not_present f) (write f);;
     bring_esp_from_thread_struct (user f) (not_present f);;
     resolve cr2 (not_present f) false ≫= report).
Proof.
  repeat (apply cnt_blind_bind; intros);
    auto using cnt_blind_exit_check, cnt_blind_write_check,
      cnt_blind_bring_esp, cnt_blind_resolve, cnt_blind_report.
Qed.

Lemma set_cnt_same m : set_cnt (page_fault_cnt m) m = m.
Proof. destruct m. reflexivity. Qed.

Lemma cnt_blind_keeps_cnt {A} (c : M A) m :
  cnt_blind c -> page_fault_cnt (c m).2 = page_fault_cnt m.
Proof.
  intros Hc. rewrite <- (set_cnt_same m) at 1. rewrite Hc. reflexivity.
Qed.

Lemma wrap_ll_small x : - LLONG_MAX - 1 <= x <= LLONG_MAX -> wrap_ll x = x.
Proof.
  intros R. unfold wrap_ll, LLONG_MAX in *. rewrite Z.mod_small; lia.
Qed.

(** C9: each run of the handler adds one to the fault counter (as long as
    the 64-bit counter has not reached its largest value), whatever the
    outcome of the run; and the counter decides nothing: from two machines
    that differ in the counter alone the handler reaches the same outcome,
    the same trap frame and the same virtual-memory state. *)
Theorem fault_counter (cr2 : Z) (m : machine) :
  (0 <= page_fault_cnt m < LLONG_MAX ->
   page_fault_cnt (page_fault cr2 m).2 = page_fault_cnt m + 1)
  /\ (forall c : Z,
        (page_fault cr2 (set_cnt c m)).1 = (page_fault cr2 m).1
        /\ tf (page_fault cr2 (set_cnt c m)).2 = tf (page_fault cr2 m).2
        /\ mem (page_fault cr2 (set_cnt c m)).2 = mem (page_fault cr2 m).2).
Proof.
  split.
  - intros R. rewrite page_fault_run.
    rewrite cnt_blind_keeps_cnt by apply cnt_blind_after_count.
    unfold counted. cbn [page_fault_cnt set_cnt].
    apply wrap_ll_small. unfold LLONG_MAX in *. lia.
  - intros c. rewrite !page_fault_run.
    change (tf (set_cnt c m)) with (tf m).
    unfold counted. cbn [page_fault_cnt set_cnt].
    change (set_cnt ?k (set_cnt c m)) with (set_cnt k m).
    rewrite !(cnt_blind_after_count cr2 (tf m)). auto.
Qed.

Section Layout.
Context {plat_ok : PlatformOk plat}.

Lemma ptr_sub_limit : ptr_sub PHYS_BASE STACK_LIMIT = PHYS_BASE - STACK_LIMIT.
Proof.
  unfold ptr_sub. apply Z.mod_small.
  pose proof PHYS_BASE_lo. pose proof PHYS_BASE_hi.
  unfold STACK_LIMIT, ptr_modulus in *. lia.
Qed.

Lemma bring_esp_run u np m :
  bring_esp_from_thread_struct u np m =
  (Ret tt, (bring_esp_from_thread_struct u np m).2).
Proof.
  unfold bring_esp_from_thread_struct.
  destruct (negb u && np && (esp (tf m) <=? ptr_sub PHYS_BASE STACK_LIMIT));
    reflexivity.
Qed.

(** C8: for a kernel-context, not-present fault whose trap frame holds a
    stack pointer at or below PHYS_BASE - STACK_LIMIT, the recovery step
    (and so the handler) stores thread_current ()->esp into the trap frame;
    for every other fault the step leaves the machine as it is and the
    handler ends with the stack pointer the trap frame came with. *)
Theorem kernel_esp_recovery (cr2 : Z) (m : machine) :
  let f := tf m in
  let recovers :=
    user f = false /\ not_present f = true
    /\ esp f <= PHYS_BASE - STACK_LIMIT in
  (recovers ->
     bring_esp_from_thread_struct (user f) (not_present f) m =
       (Ret tt, set_esp (thread_esp (mem m)) m)
     /\ esp (tf (page_fault cr2 m).2) = thread_esp (mem m))
  /\ (~ recovers ->
     bring_esp_from_thread_struct (user f) (not_present f) m = (Ret tt, m)
     /\ esp (tf (page_fault cr2 m).2) = esp f).
Proof.
  intros f recovers. subst f recovers. split.
  - intros (Hu & Hp & Hs). rewrite Hu, Hp.
    assert (Hstep : forall m', tf m' = tf m ->
      bring_esp_from_thread_struct false true m' =
      (Ret tt, set_esp (thread_esp (mem m')) m')).
    { intros m' E. unfold bring_esp_from_thread_struct.
      rewrite ptr_sub_limit, E. cbn [negb andb].
      replace (esp (tf m) <=? PHYS_BASE - STACK_LIMIT) with true
        by (symmetry; apply Z.leb_le; assumption).
      reflexivity. }
    split; [apply Hstep; reflexivity|].
    rewrite page_fault_run, Hu, Hp.
    rewrite (bind_ret _ _ _ (counted m) tt)
      by (apply exit_check_passes, andb_false_r).
    rewrite (bind_ret _ _ _ (counted m) tt)
      by (apply write_check_skipped; cbn [negb]; rewrite andb_false_r; reflexivity).
    rewrite (bind_ret _ _ _ _ tt (Hstep (counted m) eq_refl)).
    pose proof (keeps_tf_bind (resolve cr2 true false) report
                  (keeps_tf_resolve _ _ _) keeps_tf_report) as K.
    rewrite K. reflexivity.
  - intros N.
    assert (C : negb (user (tf m)) && not_present (tf m)
                && (esp (tf m) <=? ptr_sub PHYS_BASE STACK_LIMIT) = false).
    { rewrite ptr_sub_limit.
      destruct (user (tf m)), (not_present (tf m)); cbn [negb andb]; try reflexivity.
      apply Z.leb_gt. apply Z.nle_gt. intros L. apply N. auto. }
    assert (Hstep : forall m', tf m' = tf m ->
      bring_esp_from_thread_struct (user (tf m)) (not_present (tf m)) m' =
      (Ret tt, m')).
    { intros m' E. unfold bring_esp_from_thread_struct. rewrite E, C. reflexivity. }
    split; [apply Hstep; reflexivity|].
    rewrite page_fault_run.
    pose proof (keeps_tf_exit_check cr2 (user (tf m)) (counted m)) as K1.
    rewrite bind_run.
    destruct (exit_if_user_access_in_kernel cr2 (user (tf m)) (counted m))
      as [[[]|o] m1]; cbn [snd] in K1; [|cbn [snd]; rewrite K1; reflexivity].
    pose proof (keeps_tf_write_check cr2 (not_present (tf m)) (write (tf m)) m1) as K2.
    rewrite bind_run.
    destruct (write_on_nonwritable_page cr2 (not_present (tf m)) (write (tf m)) m1)
      as [[[]|o] m2]; cbn [snd] in K2;
      [|cbn [snd]; rewrite K2, K1; reflexivity].
    rewrite (bind_ret _ _ _ _ tt (Hstep m2 (eq_trans K2 K1))).
    pose proof (keeps_tf_bind (resolve cr2 (not_present (tf m)) false) report
                  (keeps_tf_resolve _ _ _) keeps_tf_report) as K.
    rewrite K, K2, K1. reflexivity.
Qed.

End Layout.
End HandlerFacts.

(** ** Resolution dispatch *)

Section Dispatch.
Context {plat : Platform} {ldr : Loader} {plat_ok : PlatformOk plat}.

(** The machine when [resolve] starts, for a fault that passes the checks:
    the fault is counted and the recovery step has run. *)
Lemma bring_esp_mem u np m :
  mem (bring_esp_from_thread_struct u np m).2 = mem m.
Proof.
  unfold bring_esp_from_thread_struct.
  destruct (negb u && np && (esp (tf m) <=? ptr_sub PHYS_BASE STACK_LIMIT));
    reflexivity.
Qed.

Lemma page_fault_not_present cr2 m :
  cr2 < PHYS_BASE ->
  not_present (tf m) = true ->
  page_fault cr2 m =
  (resolve cr2 true false ≫= report)
    (bring_esp_from_thread_struct (user (tf m)) true (counted m)).2.
Proof.
  intros Hu Hp. rewrite page_fault_run, Hp.
  rewrite (bind_ret _ _ _ (counted m) tt)
    by (apply exit_check_passes, user_addr_not_kernel, Hu).
  rewrite (bind_ret _ _ _ (counted m) tt)
    by (apply write_check_skipped; cbn [negb]; rewrite andb_false_r; reflexivity).
  rewrite (bind_ret _ _ _ _ tt (bring_esp_run _ _ _)). reflexivity.
Qed.

Lemma kill_never_exits {A} m st : (@kill _ A m).1 <> Stop (Exited st).
Proof.
  unfold kill.
  destruct (cs (tf m) =? SEL_UCSEG), (cs (tf m) =? SEL_KCSEG); discriminate.
Qed.

Lemma report_never_exits s m st : (report s m).1 <> Stop (Exited st).
Proof.
  unfold report. destruct s; cbn [negb]; [discriminate|apply kill_never_exits].
Qed.

Lemma lift_vm_run {A} (c : vm -> A * vm) m :
  lift_vm c m = (Ret (c (mem m)).1, set_mem (c (mem m)).2 m).
Proof. unfold lift_vm. destruct (c (mem m)). reflexivity. Qed.

Lemma set_alloc_never_exits kpage p m st :
  (frame_set_alloc_page kpage p m).1 <> Stop (Exited st).
Proof.
  unfold frame_set_alloc_page.
  destruct (frame_table (mem m) !! kpage); discriminate.
Qed.

Lemma stack_walk_never_exits fuel : forall addr s m st,
  (stack_walk fuel addr s m).1 <> Stop (Exited st).
Proof.
  induction fuel as [|fuel IH]; intros addr s m st; simpl;
    destruct (addr <? ptr_sub PHYS_BASE PGSIZE); try discriminate.
  rewrite bind_run. unfold ptable_lookup at 1. cbv beta iota.
  destruct (spt (mem m) !! pg_round_down addr); [apply IH|].
  rewrite bind_run. unfold frame_alloc at 1. rewrite lift_vm_run.
  rewrite bind_run.
  destruct (vm_frame_alloc true (mem m)).1 as [kpage|]; [|rewrite ret_run; apply IH].
  rewrite bind_run. unfold install_page at 1. rewrite lift_vm_run.
  match goal with |- context [ (vm_install_page ?a ?b ?c ?d).1 ] =>
    destruct (vm_install_page a b c d).1 end;
    [|rewrite ret_run; apply IH].
  rewrite bind_run. unfold malloc_page at 1. cbv beta iota.
  rewrite bind_run.
  match goal with |- context [ frame_set_alloc_page ?a ?b ?c ] =>
    pose proof (set_alloc_never_exits a b c st) as N;
    destruct (frame_set_alloc_page a b c) as [[[]|o] m'] end;
    [|cbn [fst] in *; intros E; injection E as ->; apply N; reflexivity].
  rewrite bind_run. unfold ptable_insert at 1. rewrite lift_vm_run.
  rewrite ret_run. apply IH.
Qed.

(** A not-present fault on a user address whose page has no entry reaches
    the eligibility test of the growth branch. *)
Lemma page_fault_no_entry cr2 m :
  cr2 < PHYS_BASE ->
  not_present (tf m) = true ->
  spt (mem m) !! pg_round_down cr2 = None ->
  let m1 := (bring_esp_from_thread_struct (user (tf m)) (not_present (tf m))
               (counted m)).2 in
  mem m1 = mem m
  /\ page_fault cr2 m =
     ((if (cr2 >=? ptr_sub (esp (tf m1)) 32) && (cr2 >=? PHYS_BASE - STACK_LIMIT)
       then stack_walk (stack_walk_fuel (pg_round_down cr2)) (pg_round_down cr2) false
       else system_exit (-1)) ≫= report) m1.
Proof.
  intros Hu Hp Hnone m1.
  assert (Em1 : m1 = (bring_esp_from_thread_struct (user (tf m)) true (counted m)).2)
    by (unfold m1; rewrite Hp; reflexivity).
  assert (Emem : mem m1 = mem m) by (unfold m1; rewrite bring_esp_mem; reflexivity).
  split; [exact Emem|].
  rewrite page_fault_not_present by assumption. rewrite <- Em1.
  rewrite bind_run. unfold resolve. rewrite is_user_vaddr_lt by assumption.
  cbn [andb]. rewrite bind_run. unfold ptable_lookup at 1. cbv beta iota.
  rewrite Emem, Hnone.
  unfold stack_growth. rewrite bind_run. unfold get_frame at 1.
  cbv beta iota. rewrite ptr_sub_limit. rewrite <- bind_run.
  reflexivity.
Qed.

(** C2: for a not-present fault on a user address whose page has no entry,
    the handler runs the growth loop exactly when the fault address is at
    or above (stack pointer - 32), in the source's 32-bit pointer
    arithmetic, and at or above PHYS_BASE - STACK_LIMIT; otherwise it ends
    in system_exit (-1) without resolving the fault.  The stack pointer is
    the one in the trap frame when the test runs, that is after the
    recovery step (for a user-context fault, the one the frame came with);
    and for a stack pointer of at least 32 the pointer difference is the
    integer difference. *)
Theorem stack_growth_eligibility (cr2 : Z) (m : machine) :
  cr2 < PHYS_BASE ->
  not_present (tf m) = true ->
  spt (mem m) !! pg_round_down cr2 = None ->
  let m1 := (bring_esp_from_thread_struct (user (tf m)) (not_present (tf m))
               (counted m)).2 in
  let sp := esp (tf m1) in
  let eligible := ptr_sub sp 32 <= cr2 /\ PHYS_BASE - STACK_LIMIT <= cr2 in
  (eligible ->
     page_fault cr2 m =
     (stack_walk (stack_walk_fuel (pg_round_down cr2)) (pg_round_down cr2) false
        ≫= report) m1)
  /\ (~ eligible -> page_fault cr2 m = (Stop (Exited (-1)), m1))
  /\ (eligible <-> forall st, (page_fault cr2 m).1 <> Stop (Exited st))
  /\ (user (tf m) = true -> sp = esp (tf m))
  /\ (32 <= sp < ptr_modulus -> ptr_sub sp 32 = sp - 32).
Proof.
  intros Hu Hp Hnone m1 sp eligible.
  destruct (page_fault_no_entry cr2 m Hu Hp Hnone) as [_ Hrun].
  fold m1 in Hrun. fold sp in Hrun.
  assert (Hdec : (cr2 >=? ptr_sub sp 32) && (cr2 >=? PHYS_BASE - STACK_LIMIT) = true
                 <-> eligible).
  { unfold eligible. rewrite andb_true_iff, !Z.geb_leb, !Z.leb_le. reflexivity. }
  assert (Hyes : eligible ->
     page_fault cr2 m =
     (stack_walk (stack_walk_fuel (pg_round_down cr2)) (pg_round_down cr2) false
        ≫= report) m1).
  { intros E. apply Hdec in E. rewrite Hrun, E. reflexivity. }
  assert (Hno : ~ eligible -> page_fault cr2 m = (Stop (Exited (-1)), m1)).
  { intros N. rewrite Hrun.
    destruct ((cr2 >=? ptr_sub sp 32) && (cr2 >=? PHYS_BASE - STACK_LIMIT)) eqn:E.
    - exfalso. apply N, Hdec. reflexivity.
    - reflexivity. }
  split; [exact Hyes|]. split; [exact Hno|]. split; [|split].
  - split.
    + intros E st. rewrite (Hyes E), bind_run.
      pose proof (stack_walk_never_exits (stack_walk_fuel (pg_round_down cr2))
                    (pg_round_down cr2) false m1 st) as N.
      destruct (stack_walk _ _ _ m1) as [[s|o] m2]; cbn [fst] in *.
      * apply report_never_exits.
      * intros E'; injection E' as ->; apply N; reflexivity.
    + intros N.
      destruct ((cr2 >=? ptr_sub sp 32) && (cr2 >=? PHYS_BASE - STACK_LIMIT)) eqn:E.
      * apply Hdec. reflexivity.
      * exfalso. apply (N (-1)). rewrite Hno; [reflexivity|].
        intros E'. apply Hdec in E'. congruence.
  - intros U. unfold sp, m1. rewrite U. reflexivity.
  - intros R. unfold ptr_sub. apply Z.mod_small. lia.
Qed.

(** The branch for a page that has an entry, for every loader: an entry
    that is already loaded is not touched and the fault goes to [kill]; an
    entry that is not loaded goes to the swap loader when its [swaped] flag
    is set and to the file loader otherwise; the handler returns when the
    loader reports success and goes to [kill] when it reports failure. *)
Lemma resolution_dispatch (cr2 : Z) (m : machine) (pg : page) :
  cr2 < PHYS_BASE ->
  not_present (tf m) = true ->
  spt (mem m) !! pg_round_down cr2 = Some pg ->
  let m1 := (bring_esp_from_thread_struct (user (tf m)) (not_present (tf m))
               (counted m)).2 in
  page_fault cr2 m =
  if loaded pg then kill m1
  else
    let r := (if swaped pg then page_load_swap pg else page_load_file pg) (mem m1) in
    if r.1 then (Ret tt, set_mem r.2 m1) else kill (set_mem r.2 m1).
Proof.
  intros Hu Hp Hpg m1.
  assert (Em1 : m1 = (bring_esp_from_thread_struct (user (tf m)) true (counted m)).2)
    by (unfold m1; rewrite Hp; reflexivity).
  assert (Emem : mem m1 = mem m) by (unfold m1; rewrite bring_esp_mem; reflexivity).
  rewrite page_fault_not_present by assumption. rewrite <- Em1.
  rewrite bind_run. unfold resolve. rewrite is_user_vaddr_lt by assumption.
  cbn [andb]. rewrite bind_run. unfold ptable_lookup at 1. cbv beta iota.
  rewrite Emem, Hpg. clearbody m1.
  destruct (loaded pg); cbn [negb].
  - rewrite ret_run. reflexivity.
  - destruct (swaped pg); rewrite lift_vm_run, Emem; cbv beta iota zeta;
      match goal with |- context [ (?f pg (mem m)).1 ] =>
        destruct (f pg (mem m)).1 end; reflexivity.
Qed.

End Dispatch.

(** ** The growth loop *)

Section Walk.
Context {plat : Platform} {ldr : Loader} {plat_ok : PlatformOk plat}.

Lemma PGSIZE_pos : 0 < PGSIZE.
Proof. pose proof PGSIZE_lo. lia. Qed.

Lemma ptr_sub_top : ptr_sub PHYS_BASE PGSIZE = PHYS_BASE - PGSIZE.
Proof.
  unfold ptr_sub. apply Z.mod_small.
  pose proof PGSIZE_hi. pose proof PHYS_BASE_lo. pose proof PHYS_BASE_hi.
  pose proof PGSIZE_pos. lia.
Qed.

Lemma ptr_add_page a :
  0 <= a -> a < PHYS_BASE - PGSIZE -> ptr_add a PGSIZE = a + PGSIZE.
Proof.
  intros L U. unfold ptr_add. apply Z.mod_small.
  pose proof PHYS_BASE_hi. pose proof PGSIZE_pos. lia.
Qed.

Lemma pg_round_down_aligned a : (PGSIZE | a) -> pg_round_down a = a.
Proof.
  intros [k ->]. unfold pg_round_down.
  rewrite Z.div_mul; [reflexivity|]. pose proof PGSIZE_pos. lia.
Qed.

Lemma pg_round_down_divide a : (PGSIZE | pg_round_down a).
Proof. exists (a / PGSIZE). reflexivity. Qed.

Lemma pg_round_down_bounds a :
  pg_round_down a <= a < pg_round_down a + PGSIZE.
Proof.
  unfold pg_round_down. pose proof PGSIZE_pos as P.
  rewrite (Z.mul_comm (a / PGSIZE)).
  assert (NZ : PGSIZE <> 0) by lia.
  pose proof (Z.div_mod a PGSIZE NZ) as D.
  pose proof (Z.mod_pos_bound a PGSIZE P) as B.
  set (q := a / PGSIZE) in *. set (r := a mod PGSIZE) in *.
  clearbody q r. lia.
Qed.

Lemma PHYS_BASE_divide : (PGSIZE | PHYS_BASE).
Proof.
  apply Z.mod_divide; [pose proof PGSIZE_pos; lia|apply PHYS_BASE_aligned].
Qed.

Lemma aligned_next a b :
  (PGSIZE | a) -> (PGSIZE | b) -> a < b -> a + PGSIZE <= b.
Proof.
  intros [ka ->] [kb ->] L. pose proof PGSIZE_pos as P.
  apply Z.mul_lt_mono_pos_r in L; [|exact P].
  replace (ka * PGSIZE + PGSIZE) with ((ka + 1) * PGSIZE) by ring.
  apply Z.mul_le_mono_nonneg_r; lia.
Qed.

Lemma set_mem_same m : set_mem (mem m) m = m.
Proof. destruct m. reflexivity. Qed.

Lemma walk_done fuel a s m :
  ~ a < PHYS_BASE - PGSIZE -> stack_walk fuel a s m = (Ret s, m).
Proof.
  intros N. assert (E : (a <? ptr_sub PHYS_BASE PGSIZE) = false)
    by (rewrite ptr_sub_top; apply Z.ltb_ge; lia).
  destruct fuel; simpl; rewrite E; reflexivity.
Qed.

Lemma walk_step_present fuel a s m e :
  a < PHYS_BASE - PGSIZE ->
  spt (mem m) !! pg_round_down a = Some e ->
  stack_walk (S fuel) a s m = stack_walk fuel (ptr_add a PGSIZE) s m.
Proof.
  intros L E. simpl.
  replace (a <? ptr_sub PHYS_BASE PGSIZE) with true
    by (symmetry; rewrite ptr_sub_top; apply Z.ltb_lt; assumption).
  rewrite bind_run. unfold ptable_lookup at 1. cbv beta iota.
  rewrite E. reflexivity.
Qed.

Lemma walk_step_grow fuel a s m kpage rest :
  a < PHYS_BASE - PGSIZE ->
  spt (mem m) !! pg_round_down a = None ->
  spt (mem m) !! a = None ->
  frame_supply (mem m) = Some kpage :: rest ->
  install_ok (mem m) a = true ->
  stack_walk (S fuel) a s m =
  stack_walk fuel (ptr_add a PGSIZE) true (set_mem (grown a kpage (mem m)) m).
Proof.
  intros L E Ea Hsup Hin.
  pose (w1 := (vm_frame_alloc true (mem m)).2).
  pose (w2 := (vm_install_page a kpage true w1).2).
  pose (w3 := vm_set_alloc_page kpage (new_entry a (mem m)) w2).
  assert (A1 : frame_alloc true m = (Ret (Some kpage), set_mem w1 m)).
  { unfold frame_alloc. rewrite lift_vm_run. unfold w1, vm_frame_alloc.
    rewrite Hsup. reflexivity. }
  assert (A2 : install_page a kpage true (set_mem w1 m) = (Ret true, set_mem w2 m)).
  { unfold install_page. rewrite lift_vm_run. unfold w2, vm_install_page.
    cbn [mem set_mem]. unfold w1, vm_frame_alloc. rewrite Hsup.
    cbn [snd install_ok]. rewrite Hin. reflexivity. }
  assert (J : malloc_junk w2 = malloc_junk (mem m)).
  { unfold w2, vm_install_page, w1, vm_frame_alloc. rewrite Hsup.
    cbn [snd install_ok]. rewrite Hin. reflexivity. }
  assert (A3 : frame_set_alloc_page kpage (new_entry a (mem m)) (set_mem w2 m)
               = (Ret tt, set_mem w3 m)).
  { unfold frame_set_alloc_page. cbn [mem set_mem].
    unfold w2 at 1, vm_install_page, w1, vm_frame_alloc. rewrite Hsup.
    cbn [snd install_ok]. rewrite Hin. cbn [snd frame_table].
    rewrite lookup_insert_eq. reflexivity. }
  assert (A4 : ptable_insert (new_entry a (mem m)) (set_mem w3 m)
               = (Ret true, set_mem (grown a kpage (mem m)) m)).
  { unfold ptable_insert. rewrite lift_vm_run. cbn [mem set_mem].
    unfold vm_insert, w3, vm_set_alloc_page, w2, vm_install_page, w1,
      vm_frame_alloc.
    rewrite Hsup. cbn [snd install_ok]. rewrite Hin.
    cbn [snd spt new_entry upage]. rewrite Ea. cbn [fst snd].
    unfold grown, set_mem. cbn [frame_table pagedir frame_supply install_ok
      thread_esp malloc_junk mem page_fault_cnt tf].
    rewrite alter_insert_eq, Hsup. reflexivity. }
  simpl stack_walk.
  replace (a <? ptr_sub PHYS_BASE PGSIZE) with true
    by (symmetry; rewrite ptr_sub_top; apply Z.ltb_lt; assumption).
  rewrite (bind_ret _ _ _ m None) by (unfold ptable_lookup; rewrite E; reflexivity).
  rewrite (bind_ret _ _ _ _ _ A1).
  rewrite bind_run.
  rewrite (bind_ret _ _ _ _ _ A2).
  rewrite (bind_ret _ _ _ (set_mem w2 m) (malloc_junk (mem m)))
    by (unfold malloc_page; cbn [mem set_mem]; rewrite J; reflexivity).
  change {| upage := a; writable := true; loaded := true;
            swaped := swaped (malloc_junk (mem m)); file := None |}
    with (new_entry a (mem m)).
  rewrite (bind_ret _ _ _ _ _ A3).
  rewrite (bind_ret _ _ _ _ _ A4).
  reflexivity.
Qed.

Lemma walk_step_no_frame fuel a s m :
  a < PHYS_BASE - PGSIZE ->
  spt (mem m) !! pg_round_down a = None ->
  (vm_frame_alloc true (mem m)).1 = None ->
  stack_walk (S fuel) a s m =
  stack_walk fuel (ptr_add a PGSIZE) s
    (set_mem (vm_frame_alloc true (mem m)).2 m).
Proof.
  intros L E Hnone. simpl stack_walk.
  replace (a <? ptr_sub PHYS_BASE PGSIZE) with true
    by (symmetry; rewrite ptr_sub_top; apply Z.ltb_lt; assumption).
  rewrite (bind_ret _ _ _ m None) by (unfold ptable_lookup; rewrite E; reflexivity).
  rewrite (bind_ret _ _ _ (set_mem (vm_frame_alloc true (mem m)).2 m) None)
    by (unfold frame_alloc; rewrite lift_vm_run, Hnone; reflexivity).
  reflexivity.
Qed.

Lemma on_walk_self a :
  (PGSIZE | a) -> a < PHYS_BASE - PGSIZE -> on_walk a a.
Proof. intros D L. unfold on_walk. split; [lia|exact D]. Qed.

Lemma on_walk_next a pg :
  (PGSIZE | a) -> on_walk a pg -> pg <> a -> on_walk (a + PGSIZE) pg.
Proof.
  intros D [[L U] Dp] N. split; [|exact Dp]. split; [|exact U].
  apply aligned_next; [exact D|exact Dp|lia].
Qed.

Lemma on_walk_weaken a pg : on_walk (a + PGSIZE) pg -> on_walk a pg.
Proof.
  intros [[L U] Dp]. split; [|exact Dp]. pose proof PGSIZE_pos. lia.
Qed.

Lemma not_on_walk_next a : ~ on_walk (a + PGSIZE) a.
Proof. intros [[L U] Dp]. pose proof PGSIZE_pos. lia. Qed.

Lemma zeroed_grown a kpage w k0 : zeroed k0 w -> zeroed k0 (grown a kpage w).
Proof.
  intros (fr & E & Z0). unfold zeroed, grown. cbn [frame_table].
  destruct (decide (kpage = k0)) as [->|N].
  - rewrite lookup_insert_eq. eexists. split; reflexivity.
  - rewrite lookup_insert_ne by assumption. exists fr. auto.
Qed.

Lemma zeroed_grown_own a kpage w : zeroed kpage (grown a kpage w).
Proof.
  unfold zeroed, grown. cbn [frame_table]. rewrite lookup_insert_eq.
  eexists. split; reflexivity.
Qed.

Lemma walk_effect_skip a w w' e :
  (PGSIZE | a) ->
  spt w !! a = Some e ->
  walk_effect (a + PGSIZE) w w' -> walk_effect a w w'.
Proof.
  intros D Ea (E1 & E2 & E3 & E4).
  split; [|split; [|split; assumption]].
  - intros q N. apply E1. intros On. apply N, on_walk_weaken, On.
  - intros pg On. destruct (decide (pg = a)) as [->|Ne].
    + rewrite Ea. destruct (E1 a (not_on_walk_next a)) as [-> ->]. auto.
    + apply E2, on_walk_next; assumption.
Qed.

Lemma walk_effect_grow a w w' kpage rest :
  (PGSIZE | a) -> a < PHYS_BASE - PGSIZE ->
  spt w !! a = None ->
  frame_supply w = Some kpage :: rest ->
  walk_effect (a + PGSIZE) (grown a kpage w) w' -> walk_effect a w w'.
Proof.
  intros D L Ea Hsup (E1 & E2 & E3 & E4 & E5 & E6).
  split; [|split; [|split; [|split; [|split]]]].
  - intros q N.
    assert (q <> a) by (intros ->; apply N, on_walk_self; assumption).
    destruct (E1 q) as [-> ->].
    { intros On. apply N, on_walk_weaken, On. }
    unfold grown. cbn [spt pagedir].
    rewrite !lookup_insert_ne by congruence. auto.
  - intros pg On. destruct (decide (pg = a)) as [->|Ne].
    + rewrite Ea. destruct (E1 a (not_on_walk_next a)) as [-> ->].
      unfold grown at 1 2. cbn [spt pagedir]. rewrite !lookup_insert_eq.
      split; [reflexivity|]. exists kpage. rewrite Hsup.
      split; [apply elem_of_cons; left; reflexivity|].
      split; [reflexivity|]. apply E3, zeroed_grown_own.
    + specialize (E2 pg (on_walk_next a pg D On Ne)).
      assert (Gs : spt (grown a kpage w) !! pg = spt w !! pg)
        by (unfold grown; cbn [spt]; apply lookup_insert_ne; congruence).
      assert (Gp : pagedir (grown a kpage w) !! pg = pagedir w !! pg)
        by (unfold grown; cbn [pagedir]; apply lookup_insert_ne; congruence).
      rewrite Gs in E2.
      destruct (spt w !! pg) as [e|]; [rewrite Gp in E2; exact E2|].
      destruct E2 as [E2 (k' & In' & Pd & Z')]. split; [exact E2|].
      exists k'. split; [|split; assumption].
      unfold grown in In'. cbn [frame_supply] in In'. rewrite Hsup in *.
      apply elem_of_cons. right. exact In'.
  - intros k0 Z0. apply E3, zeroed_grown, Z0.
  - rewrite E4. reflexivity.
  - rewrite E5. reflexivity.
  - rewrite E6. reflexivity.
Qed.

Lemma walk_effect_none a w :
  ~ a < PHYS_BASE - PGSIZE -> walk_effect a w w.
Proof.
  intros N. split; [|split; [|split; [|split; [|split]]]]; try reflexivity.
  - intros q _. auto.
  - intros pg [[L U] _]. lia.
  - auto.
Qed.

(** The loop, run with enough fuel on a thread whose frame supply and
    installer do not fail, returns; it reports success as soon as one page
    was missing, and its effect is [walk_effect]. *)
Lemma walk_grows (n : nat) : forall fuel a s m,
  (n <= fuel)%nat ->
  (PGSIZE | a) -> 0 <= a ->
  a + Z.of_nat n * PGSIZE = PHYS_BASE - PGSIZE ->
  (forall pg, install_ok (mem m) pg = true) ->
  (forall i, (i < n)%nat -> exists k, frame_supply (mem m) !! i = Some (Some k)) ->
  exists s' w',
    stack_walk fuel a s m = (Ret s', set_mem w' m)
    /\ ((s = true \/ exists pg, on_walk a pg /\ spt (mem m) !! pg = None) ->
        s' = true)
    /\ walk_effect a (mem m) w'.
Proof.
  induction n as [|n IH]; intros fuel a s m Hfuel D Ha Htop Hinst Hsup.
  - assert (N : ~ a < PHYS_BASE - PGSIZE) by lia.
    exists s, (mem m). rewrite walk_done, set_mem_same by assumption.
    split; [reflexivity|]. split; [|apply walk_effect_none; assumption].
    intros [->|(pg & [[L U] _] & _)]; [reflexivity|lia].
  - destruct fuel as [|fuel]; [lia|].
    pose proof PGSIZE_pos as P.
    rewrite Nat2Z.inj_succ, Z.mul_succ_l in Htop.
    assert (L : a < PHYS_BASE - PGSIZE) by lia.
    assert (D' : (PGSIZE | a + PGSIZE))
      by (apply Z.divide_add_r; [exact D|apply Z.divide_refl]).
    pose proof (pg_round_down_aligned a D) as Rd.
    destruct (spt (mem m) !! a) as [e|] eqn:Ea.
    + rewrite (walk_step_present fuel a s m e), ptr_add_page
        by (rewrite ?Rd; assumption).
      destruct (IH fuel (a + PGSIZE) s m) as (s' & w' & Hrun & Hs & Heff);
        try assumption; try lia.
      { intros i Hi. apply Hsup. lia. }
      exists s', w'. split; [exact Hrun|]. split.
      * intros [->|(pg & On & Hpg)]; apply Hs; [left; reflexivity|].
        right. exists pg. split; [|exact Hpg].
        apply on_walk_next; [assumption..|]. congruence.
      * apply (walk_effect_skip a _ _ e); assumption.
    + destruct (Hsup 0%nat) as [kpage Hk]; [lia|].
      destruct (frame_supply (mem m)) as [|x rest] eqn:Hs0; [discriminate|].
      cbn in Hk. injection Hk as ->.
      rewrite (walk_step_grow fuel a s m kpage rest), ptr_add_page
        by (rewrite ?Rd; auto).
      destruct (IH fuel (a + PGSIZE) true (set_mem (grown a kpage (mem m)) m))
        as (s' & w' & Hrun & Hs & Heff); try assumption; try lia.
      { intros i Hi. cbn [mem set_mem grown frame_supply]. rewrite Hs0.
        cbn [tail]. destruct (Hsup (S i)) as [k Hk]; [lia|].
        exists k. exact Hk. }
      exists s', w'. split; [exact Hrun|]. split.
      * intros _. apply Hs. left. reflexivity.
      * apply (walk_effect_grow a _ _ kpage rest); assumption.
Qed.

Lemma pg_round_down_unique a x :
  (PGSIZE | a) -> a <= x < a + PGSIZE -> pg_round_down x = a.
Proof.
  intros [k ->] R. unfold pg_round_down. f_equal. symmetry.
  apply (Z.div_unique_pos x PGSIZE k (x - k * PGSIZE)); lia.
Qed.

Lemma pg_round_down_nonneg x : 0 <= x -> 0 <= pg_round_down x.
Proof.
  intros L. unfold pg_round_down. pose proof PGSIZE_pos as P.
  apply Z.mul_nonneg_nonneg; [|lia]. apply Z.div_pos; assumption.
Qed.

Lemma pg_round_down_below_top x :
  x < PHYS_BASE -> pg_round_down x <= PHYS_BASE - PGSIZE.
Proof.
  intros L. pose proof (pg_round_down_bounds x).
  pose proof (aligned_next (pg_round_down x) PHYS_BASE
                (pg_round_down_divide x) PHYS_BASE_divide).
  lia.
Qed.

(** The fuel the handler passes covers the whole walk. *)
Lemma walk_length_spec x :
  0 <= x < PHYS_BASE ->
  pg_round_down x + Z.of_nat (walk_length x) * PGSIZE = PHYS_BASE - PGSIZE
  /\ (walk_length x <= stack_walk_fuel (pg_round_down x))%nat.
Proof.
  intros [L U]. pose proof PGSIZE_pos as P.
  pose proof (pg_round_down_below_top x U) as B.
  destruct (pg_round_down_divide x) as [ks Es].
  destruct PHYS_BASE_divide as [kb Eb].
  unfold walk_length, stack_walk_fuel. rewrite Es, Eb in *.
  replace (kb * PGSIZE - PGSIZE - ks * PGSIZE) with ((kb - 1 - ks) * PGSIZE) by ring.
  replace (kb * PGSIZE - ks * PGSIZE) with ((kb - ks) * PGSIZE) by ring.
  rewrite !Z.div_mul by lia.
  assert (ks <= kb - 1).
  { apply (Z.mul_le_mono_pos_r _ _ PGSIZE); [exact P|]. lia. }
  split; [rewrite Z2Nat.id by lia; ring|]. apply Z2Nat.inj_le; lia.
Qed.

Lemma kill_run {A} m :
  exists o, @kill _ A m = (Stop o, m) /\ (o = ThreadExit \/ o = Panic).
Proof.
  unfold kill.
  destruct (cs (tf m) =? SEL_UCSEG), (cs (tf m) =? SEL_KCSEG); eauto.
Qed.

Lemma bring_esp_high u np m :
  PHYS_BASE - STACK_LIMIT < esp (tf m) ->
  bring_esp_from_thread_struct u np (counted m) = (Ret tt, counted m).
Proof.
  intros L. unfold bring_esp_from_thread_struct. rewrite ptr_sub_limit.
  change (tf (counted m)) with (tf m).
  replace (esp (tf m) <=? PHYS_BASE - STACK_LIMIT) with false
    by (symmetry; apply Z.leb_gt; assumption).
  rewrite andb_false_r. reflexivity.
Qed.

(** C5 (as the code has it): on an eligible growth fault, with a frame
    supply and an installer that do not fail, the handler walks the pages
    from the one containing the fault address upward, toward higher
    addresses, and stops short of the top stack page at PHYS_BASE - PGSIZE.
    A page of the walk that has an entry is skipped and left as it is; a
    page without one gets a frame requested zero-filled, a writable
    mapping to it, and an entry with [loaded] and [writable] set and no
    file.  No other page, in particular none below the fault page, is
    touched.  The fault resolves when the walk is not empty. *)
Theorem stack_growth_walk (cr2 : Z) (m : machine) :
  cr2 < PHYS_BASE ->
  not_present (tf m) = true ->
  spt (mem m) !! pg_round_down cr2 = None ->
  let m1 := (bring_esp_from_thread_struct (user (tf m)) (not_present (tf m))
               (counted m)).2 in
  ptr_sub (esp (tf m1)) 32 <= cr2 ->
  PHYS_BASE - STACK_LIMIT <= cr2 ->
  (forall pg, install_ok (mem m) pg = true) ->
  (forall i, (i < walk_length cr2)%nat ->
     exists kpage, frame_supply (mem m) !! i = Some (Some kpage)) ->
  exists w',
    page_fault cr2 m =
      (if bool_decide (pg_round_down cr2 < PHYS_BASE - PGSIZE)
       then (Ret tt, set_mem w' m1) else kill m1)
    /\ walk_effect (pg_round_down cr2) (mem m) w'.
Proof.
  intros Hu Hp Hnone m1 He1 He2 Hinst Hsup.
  destruct (page_fault_no_entry cr2 m Hu Hp Hnone) as [Emem Hrun].
  fold m1 in Emem, Hrun.
  rewrite !geb_true_le in Hrun by assumption. cbn [andb] in Hrun.
  assert (R : 0 <= cr2 < PHYS_BASE)
    by (pose proof PHYS_BASE_lo; lia).
  destruct (walk_length_spec cr2 R) as [Htop Hfuel].
  destruct (walk_grows (walk_length cr2) (stack_walk_fuel (pg_round_down cr2))
              (pg_round_down cr2) false m1 Hfuel (pg_round_down_divide cr2)
              (pg_round_down_nonneg cr2 (proj1 R)) Htop)
    as (s' & w' & Hwalk & Hs & Heff).
  { rewrite Emem. exact Hinst. }
  { rewrite Emem. exact Hsup. }
  rewrite Emem in Hs, Heff.
  rewrite Hrun, (bind_ret _ _ _ _ _ Hwalk).
  case_bool_decide as Hlt.
  - exists w'. split; [|exact Heff].
    rewrite Hs; [reflexivity|]. right. exists (pg_round_down cr2).
    split; [|exact Hnone].
    apply on_walk_self; [apply pg_round_down_divide|exact Hlt].
  - exists (mem m). split; [|apply walk_effect_none; exact Hlt].
    rewrite walk_done in Hwalk by exact Hlt.
    injection Hwalk as <- <-. reflexivity.
Qed.

End Walk.

(** ** Termination of the loop model *)

Section Fuel.
Context {plat : Platform} {ldr : Loader} {plat_ok : PlatformOk plat}.

Lemma avoids_bind {A B} o (c : M A) (k : A -> M B) :
  avoids o c -> (forall a, avoids o (k a)) -> avoids o (c ≫= k).
Proof.
  intros Hc Hk m. rewrite bind_run. specialize (Hc m).
  destruct (c m) as [[a|o'] m']; cbn [fst] in *; [apply Hk|].
  intros E. apply Hc. injection E as ->. reflexivity.
Qed.

Lemma avoids_ret {A} o (a : A) : avoids o (mret a).
Proof. intros m. discriminate. Qed.

Lemma avoids_lift {A} o (c : vm -> A * vm) : avoids o (lift_vm c).
Proof. intros m. rewrite lift_vm_run. discriminate. Qed.

Lemma avoids_halt {A} o o' : o' <> o -> avoids o (@halt A o').
Proof. intros N m E. apply N. injection E as ->. reflexivity. Qed.

Lemma avoids_kill {A} : avoids OutOfFuel (@kill _ A).
Proof.
  intros m. destruct (@kill_run _ A m) as (o & -> & [-> | ->]); discriminate.
Qed.

Lemma avoids_set_alloc kpage p : avoids OutOfFuel (frame_set_alloc_page kpage p).
Proof.
  intros m. unfold frame_set_alloc_page.
  destruct (frame_table (mem m) !! kpage); discriminate.
Qed.

(** The loop never runs out of fuel when the fuel covers the distance to
    the top stack page, whatever the collaborators answer. *)
Lemma stack_walk_total fuel : forall a s,
  0 <= a ->
  PHYS_BASE - PGSIZE - a <= Z.of_nat fuel * PGSIZE ->
  avoids OutOfFuel (stack_walk fuel a s).
Proof.
  pose proof PGSIZE_pos as P.
  induction fuel as [|fuel IH]; intros a s Ha Hf m; simpl;
    destruct (a <? ptr_sub PHYS_BASE PGSIZE) eqn:E; try discriminate;
    rewrite ptr_sub_top in E; apply Z.ltb_lt in E; [lia|].
  assert (Hnext : forall s', avoids OutOfFuel
            (stack_walk fuel (ptr_add a PGSIZE) s')).
  { intros s'. rewrite ptr_add_page by lia. apply IH; lia. }
  revert m. apply avoids_bind; [intros m; discriminate|].
  intros [e|]; [apply Hnext|].
  apply avoids_bind; [apply avoids_lift|]. intros [kpage|].
  - apply avoids_bind; [|exact Hnext].
    apply avoids_bind; [apply avoids_lift|]. intros [|]; [|apply avoids_ret].
    apply avoids_bind; [intros m; discriminate|]. intros blk.
    apply avoids_bind; [apply avoids_set_alloc|]. intros _.
    apply avoids_bind; [apply avoids_lift|]. intros inserted. apply avoids_ret.
  - apply avoids_bind; [apply avoids_ret|exact Hnext].
Qed.

(** With the fuel the handler passes, so does the handler: every run of
    [page_fault] ends in a return or in one of the stops of the C code. *)
Lemma page_fault_total cr2 : avoids OutOfFuel (page_fault cr2).
Proof.
  intros m. rewrite page_fault_run.
  generalize (counted m). generalize (tf m). clear m. intros f.
  fold (avoids OutOfFuel
    (exit_if_user_access_in_kernel cr2 (user f);;
     write_on_nonwritable_page cr2 (not_present f) (write f);;
     bring_esp_from_thread_struct (user f) (not_present f);;
     resolve cr2 (not_present f) false ≫= report)).
  apply avoids_bind.
  { unfold exit_if_user_access_in_kernel.
    destruct (is_kernel_vaddr cr2 && user f);
      [apply avoids_halt; discriminate|apply avoids_ret]. }
  intros _. apply avoids_bind.
  { unfold write_on_nonwritable_page.
    destruct (is_user_vaddr cr2 && negb (not_present f) && write f);
      [|apply avoids_ret].
    apply avoids_bind; [intros m; discriminate|].
    intros [pg|]; [|apply avoids_halt; discriminate].
    destruct (negb (writable pg)); [apply avoids_halt; discriminate|apply avoids_ret]. }
  intros _. apply avoids_bind.
  { intros m. rewrite bring_esp_run. discriminate. }
  intros _. apply avoids_bind.
  - unfold resolve. destruct (is_user_vaddr cr2) eqn:Eu; cbn [andb];
      [|apply avoids_ret].
    destruct (not_present f); [|apply avoids_ret].
    apply Z.ltb_lt in Eu.
    apply avoids_bind; [intros m; discriminate|]. intros [pg|].
    + destruct (negb (loaded pg)); [|apply avoids_ret].
      destruct (swaped pg); apply avoids_lift.
    + unfold stack_growth. apply avoids_bind; [intros m; discriminate|].
      intros f'.
      destruct (cr2 >=? ptr_sub (esp f') 32); cbn [andb];
        [|apply avoids_halt; discriminate].
      destruct (cr2 >=? ptr_sub PHYS_BASE STACK_LIMIT) eqn:El;
        [|apply avoids_halt; discriminate].
      rewrite ptr_sub_limit, Z.geb_leb in El. apply Z.leb_le in El.
      assert (R : 0 <= cr2 < PHYS_BASE) by (pose proof PHYS_BASE_lo; lia).
      destruct (walk_length_spec cr2 R) as [Htop Hfuel].
      apply stack_walk_total; [apply pg_round_down_nonneg; lia|].
      apply Nat2Z.inj_le in Hfuel. pose proof PGSIZE_pos. nia.
  - intros s. unfold report. destruct (negb s); [apply avoids_kill|apply avoids_ret].
Qed.

End Fuel.

(** ** The Pintos layout, and the scenarios run on it *)

Lemma pintos_ok : PlatformOk pintos.
Proof. split; vm_compute; congruence. Qed.

(** A user-context fault 16 bytes into the kernel's range. *)
Lemma user_fault_in_kernel_range_witness :
  let m := scenario 4 stack_top (scenario_vm ∅ []) in
  (user (plat:=pintos) (tf m) = true
   /\ PHYS_BASE (Platform:=pintos) <= stack_top + 16)
  /\ pintos_page_fault (stack_top + 16) m = (Stop (Exited (-1)), counted m).
Proof.
  intros m.
  assert (Hu : user (plat:=pintos) (tf m) = true) by reflexivity.
  assert (Hk : PHYS_BASE (Platform:=pintos) <= stack_top + 16)
    by (vm_compute; congruence).
  split; [split; assumption|].
  apply (user_fault_in_kernel_range (plat:=pintos) (ldr:=scenario_loader)
           (stack_top + 16) m Hu Hk).
Defined.

(** A user write to a resident read-only page at 0x08048000. *)
Lemma write_to_read_only_page_witness :
  let m := scenario 7 (stack_top - 64)
             (scenario_vm {[ 134512640 := read_only_entry 134512640 ]} []) in
  pintos_page_fault (134512640 + 12) m = (Stop (Exited (-1)), counted m).
Proof.
  intros m.
  apply (write_to_read_only_page (plat:=pintos) (ldr:=scenario_loader)
           (134512640 + 12) m (read_only_entry 134512640)).
  - vm_compute. reflexivity.
  - reflexivity.
  - reflexivity.
  - vm_compute. reflexivity.
  - reflexivity.
Defined.

(** The same write with and without an entry for the page. *)
Lemma write_check_dereference_witness :
  let m := scenario 7 (stack_top - 64)
             (scenario_vm {[ 134512640 := read_only_entry 134512640 ]} []) in
  let m' := scenario 7 (stack_top - 64) (scenario_vm ∅ []) in
  (pintos_page_fault (134512640 + 12) m).1 <> Stop NullDeref
  /\ pintos_page_fault (134512640 + 12) m' = (Stop NullDeref, counted m').
Proof.
  intros m m'. split.
  - destruct (write_check_dereference (plat:=pintos) (ldr:=scenario_loader)
                (134512640 + 12) m) as [Hsome _];
      [vm_compute; reflexivity|reflexivity|reflexivity|].
    apply (Hsome (read_only_entry 134512640)). vm_compute. reflexivity.
  - destruct (write_check_dereference (plat:=pintos) (ldr:=scenario_loader)
                (134512640 + 12) m') as [_ Hnone];
      [vm_compute; reflexivity|reflexivity|reflexivity|].
    apply Hnone. vm_compute. reflexivity.
Defined.

(** The first fault of a machine, and the same fault on a machine that has
    already counted 41. *)
Lemma fault_counter_witness :
  let m := scenario 4 stack_top (scenario_vm ∅ []) in
  page_fault_cnt (pintos_page_fault (stack_top - 4) m).2 = 1
  /\ (pintos_page_fault (stack_top - 4) (set_cnt 41 m)).1
     = (pintos_page_fault (stack_top - 4) m).1.
Proof.
  intros m.
  destruct (fault_counter (plat:=pintos) (ldr:=scenario_loader)
              (stack_top - 4) m) as [Hinc Hblind].
  split.
  - apply Hinc. vm_compute. split; congruence.
  - apply (Hblind 41).
Defined.

(** A kernel-context fault with a stack pointer of 0 in the trap frame,
    and a user-context fault. *)
Lemma kernel_esp_recovery_witness :
  let mk := kernel_scenario 0 0 (scenario_vm ∅ []) in
  let mu := scenario 4 (stack_top - 64) (scenario_vm ∅ []) in
  esp (tf (pintos_page_fault (stack_top - 4) mk).2) = stack_top
  /\ esp (tf (pintos_page_fault (stack_top - 4) mu).2) = stack_top - 64.
Proof.
  intros mk mu. split.
  - destruct (kernel_esp_recovery (plat:=pintos) (ldr:=scenario_loader)
                (plat_ok:=pintos_ok) (stack_top - 4) mk) as [Hrec _].
    apply Hrec. repeat split; vm_compute; congruence.
  - destruct (kernel_esp_recovery (plat:=pintos) (ldr:=scenario_loader)
                (plat_ok:=pintos_ok) (stack_top - 4) mu) as [_ Hkeep].
    apply Hkeep. intros (Hu & _). vm_compute in Hu. congruence.
Defined.

(** A push just below the stack pointer, two pages under the top, is
    eligible; a write 10 MiB below the top of user space is not. *)
Lemma stack_growth_eligibility_witness :
  let w := scenario_vm {[ stack_top - page_bytes := stack_entry (stack_top - page_bytes) ]}
             [Some 100] in
  let a := stack_top - 2 * page_bytes - 4 in
  let far := stack_top - 10 * 1024 * 1024 in
  (forall st, (pintos_page_fault a (scenario 6 (a + 4) w)).1 <> Stop (Exited st))
  /\ pintos_page_fault far (scenario 6 far w)
     = (Stop (Exited (-1)), counted (scenario 6 far w)).
Proof.
  intros w a far. split.
  - destruct (stack_growth_eligibility (plat:=pintos) (ldr:=scenario_loader)
                (plat_ok:=pintos_ok) a (scenario 6 (a + 4) w))
      as (_ & _ & Hiff & _);
      [vm_compute; reflexivity|reflexivity|vm_compute; reflexivity|].
    apply Hiff. split; vm_compute; congruence.
  - destruct (stack_growth_eligibility (plat:=pintos) (ldr:=scenario_loader)
                (plat_ok:=pintos_ok) far (scenario 6 far w))
      as (_ & Hno & _);
      [vm_compute; reflexivity|reflexivity|vm_compute; reflexivity|].
    apply Hno. intros [_ Hlim]. vm_compute in Hlim. congruence.
Defined.

(** C3, where the code fails the claim.  The fault is in the third page
    from the top; the top page has its entry, so the walk covers two
    pages.  When the frame provider fails for the first of them (the page
    of the fault) and delivers for the second, the later success
    overwrites the failure: the handler returns as if the fault were
    resolved, with no entry and no mapping for the faulting page.  When
    the provider delivers for the first page and fails for the second,
    [success] keeps the value of the first page, so the handler again
    returns; the page grown before the failure stays. *)
Lemma growth_failure_masked :
  let pg := stack_top - 3 * page_bytes in
  let w supply :=
    scenario_vm {[ stack_top - page_bytes := stack_entry (stack_top - page_bytes) ]}
      supply in
  let r1 := pintos_page_fault (pg + 8) (scenario 6 (pg + 8) (w [None; Some 100])) in
  let r2 := pintos_page_fault (pg + 8) (scenario 6 (pg + 8) (w [Some 100; None])) in
  (r1.1 = Ret tt
   /\ spt (mem r1.2) !! pg = None
   /\ pagedir (mem r1.2) !! pg = None
   /\ spt (mem r1.2) !! (pg + page_bytes) = Some (new_entry (pg + page_bytes) (w [])))
  /\ (r2.1 = Ret tt
      /\ spt (mem r2.2) !! pg = Some (new_entry pg (w []))
      /\ spt (mem r2.2) !! (pg + page_bytes) = None).
Proof. vm_compute. repeat split. Qed.

(** C5, where the claim fails: a fault in the third page from the top,
    with an entry for the top page only and frames ready.  The page below
    the fault page lies on the downward walk of the specification, has no
    entry and is within the stack limit, and gets none; the page above the
    fault page lies off that walk and gets one. *)
Lemma walk_is_not_downward :
  let pg := stack_top - 3 * page_bytes in
  let w :=
    scenario_vm {[ stack_top - page_bytes := stack_entry (stack_top - page_bytes) ]}
      [Some 100; Some 101; Some 102] in
  let r := pintos_page_fault (pg + 8) (scenario 6 (pg + 8) w) in
  ~ spec_growth (plat:=pintos) (pg + 8) w (mem r.2)
  /\ spt (mem r.2) !! (pg - page_bytes) = None
  /\ ~ (pg + page_bytes ∈ spec_walk (plat:=pintos) (pg + 8) (spt w))
  /\ spt (mem r.2) !! (pg + page_bytes) = Some (new_entry (pg + page_bytes) w).
Proof.
  intros pg w r. split; [|split; [|split]].
  - intros Hspec. destruct (Hspec (pg - page_bytes)) as (e & He & _).
    + apply list_elem_of_lookup. exists 1%nat. vm_compute. reflexivity.
    + vm_compute. reflexivity.
    + vm_compute in He. discriminate He.
  - vm_compute. reflexivity.
  - intros Hin. apply list_elem_of_lookup in Hin. destruct Hin as [i Hi].
    assert (Hall : Forall (fun q => q <= pg) (spec_walk (plat:=pintos) (pg + 8) (spt w))).
    { apply Forall_forall. intros q Hq. 
      apply (proj1 (bool_decide_spec (q <= pg))).
      revert q Hq. apply Forall_forall.
      apply (proj1 (bool_decide_spec _)). vm_compute. reflexivity. }
    rewrite Forall_lookup in Hall. specialize (Hall i _ Hi).
    vm_compute in Hall. congruence.
  - vm_compute. reflexivity.
Qed.

(** The walk of two pages from the fault page up to the top page. *)
Lemma stack_growth_walk_witness :
  let pg := stack_top - 3 * page_bytes in
  let w :=
    scenario_vm {[ stack_top - page_bytes := stack_entry (stack_top - page_bytes) ]}
      [Some 100; Some 101] in
  let m := scenario 6 (pg + 8) w in
  exists w',
    pintos_page_fault (pg + 8) m = (Ret tt, set_mem w' (counted m))
    /\ walk_effect (plat:=pintos) pg w w'.
Proof.
  intros pg w m.
  destruct (stack_growth_walk (plat:=pintos) (ldr:=scenario_loader)
              (plat_ok:=pintos_ok) (pg + 8) m) as (w' & Hrun & Heff).
  - vm_compute. reflexivity.
  - reflexivity.
  - vm_compute. reflexivity.
  - vm_compute. congruence.
  - vm_compute. congruence.
  - intros q. reflexivity.
  - intros i Hi.
    assert (E : walk_length (plat:=pintos) (pg + 8) = 2%nat)
      by (vm_compute; reflexivity).
    rewrite E in Hi.
    destruct i as [|[|i]]; [exists 100; reflexivity|exists 101; reflexivity|lia].
  - exists w'. split; [exact Hrun|].
    replace pg with (pg_round_down (plat:=pintos) (pg + 8))
      by (vm_compute; reflexivity).
    exact Heff.
Defined.

(** ** The growth loop as a relation *)

Section Steps.
Context {plat : Platform} {ldr : Loader} {plat_ok : PlatformOk plat}.

Lemma vm_frame_alloc_fields zf w :
  spt (vm_frame_alloc zf w).2 = spt w
  /\ pagedir (vm_frame_alloc zf w).2 = pagedir w
  /\ install_ok (vm_frame_alloc zf w).2 = install_ok w
  /\ thread_esp (vm_frame_alloc zf w).2 = thread_esp w
  /\ malloc_junk (vm_frame_alloc zf w).2 = malloc_junk w
  /\ frame_supply (vm_frame_alloc zf w).2 = tail (frame_supply w).
Proof.
  unfold vm_frame_alloc. destruct (frame_supply w) as [|[k|] rest] eqn:E;
    cbn; rewrite ?E; repeat split; reflexivity.
Qed.

Lemma walk_step_refused fuel a s m kpage rest :
  a < PHYS_BASE - PGSIZE ->
  spt (mem m) !! pg_round_down a = None ->
  frame_supply (mem m) = Some kpage :: rest ->
  install_ok (mem m) a = false ->
  stack_walk (S fuel) a s m =
  stack_walk fuel (ptr_add a PGSIZE) false
    (set_mem (vm_frame_alloc true (mem m)).2 m).
Proof.
  intros L E Hsup Hin.
  pose (w1 := (vm_frame_alloc true (mem m)).2).
  assert (A1 : frame_alloc true m = (Ret (Some kpage), set_mem w1 m)).
  { unfold frame_alloc. rewrite lift_vm_run. unfold w1, vm_frame_alloc.
    rewrite Hsup. reflexivity. }
  assert (A2 : install_page a kpage true (set_mem w1 m) = (Ret false, set_mem w1 m)).
  { unfold install_page. rewrite lift_vm_run. unfold vm_install_page.
    cbn [mem set_mem]. unfold w1.
    destruct (vm_frame_alloc_fields true (mem m)) as (_ & _ & -> & _).
    rewrite Hin. reflexivity. }
  simpl stack_walk.
  replace (a <? ptr_sub PHYS_BASE PGSIZE) with true
    by (symmetry; rewrite ptr_sub_top; apply Z.ltb_lt; assumption).
  rewrite (bind_ret _ _ _ m None) by (unfold ptable_lookup; rewrite E; reflexivity).
  rewrite (bind_ret _ _ _ _ _ A1).
  rewrite bind_run.
  rewrite (bind_ret _ _ _ _ _ A2).
  reflexivity.
Qed.

(** The loop of the source, run with enough fuel from an aligned page,
    returns, and what it did is a walk of the relation. *)
Lemma stack_walk_walked (n : nat) : forall fuel a s m,
  (n <= fuel)%nat ->
  (PGSIZE | a) -> 0 <= a ->
  a + Z.of_nat n * PGSIZE = PHYS_BASE - PGSIZE ->
  exists s' w',
    stack_walk fuel a s m = (Ret s', set_mem w' m)
    /\ walked a (mem m) s w' s'.
Proof.
  induction n as [|n IH]; intros fuel a s m Hfuel D Ha Htop.
  - assert (N : ~ a < PHYS_BASE - PGSIZE) by lia.
    exists s, (mem m). rewrite walk_done, set_mem_same by assumption.
    split; [reflexivity|]. apply walked_done. exact N.
  - destruct fuel as [|fuel]; [lia|].
    pose proof PGSIZE_pos as P.
    rewrite Nat2Z.inj_succ, Z.mul_succ_l in Htop.
    assert (L : a < PHYS_BASE - PGSIZE) by lia.
    assert (D' : (PGSIZE | a + PGSIZE))
      by (apply Z.divide_add_r; [exact D|apply Z.divide_refl]).
    pose proof (pg_round_down_aligned a D) as Rd.
    assert (Hnext : forall s1 w1,
      page_step a (mem m) s w1 s1 ->
      stack_walk (S fuel) a s m =
        stack_walk fuel (a + PGSIZE) s1 (set_mem w1 m) ->
      exists s' w', stack_walk (S fuel) a s m = (Ret s', set_mem w' m)
                    /\ walked a (mem m) s w' s').
    { intros s1 w1 Hstep Hrun.
      destruct (IH fuel (a + PGSIZE) s1 (set_mem w1 m))
        as (s' & w' & Hrest & Hw); try assumption; try lia.
      exists s', w'. split; [rewrite Hrun; exact Hrest|].
      apply (walked_step a _ _ w1 s1); assumption. }
    destruct (spt (mem m) !! a) as [e|] eqn:Ea.
    + apply (Hnext s (mem m)); [apply (step_present a _ _ e); exact Ea|].
      rewrite set_mem_same.
      rewrite (walk_step_present fuel a s m e), ptr_add_page
        by (rewrite ?Rd; assumption).
      reflexivity.
    + destruct (frame_supply (mem m)) as [|[kpage|] rest] eqn:Hs0.
      * apply (Hnext s (vm_frame_alloc true (mem m)).2).
        { apply step_no_frame; [exact Ea|].
          unfold vm_frame_alloc. rewrite Hs0. reflexivity. }
        rewrite walk_step_no_frame, ptr_add_page; try assumption;
          try reflexivity; rewrite ?Rd; try assumption.
        unfold vm_frame_alloc. rewrite Hs0. reflexivity.
      * destruct (install_ok (mem m) a) eqn:Hin.
        -- apply (Hnext true (grown a kpage (mem m))).
           { apply (step_grown a _ _ kpage rest); assumption. }
           rewrite (walk_step_grow fuel a s m kpage rest), ptr_add_page;
             rewrite ?Rd; auto.
        -- apply (Hnext false (vm_frame_alloc true (mem m)).2).
           { apply (step_refused a _ _ kpage rest); assumption. }
           rewrite (walk_step_refused fuel a s m kpage rest), ptr_add_page;
             rewrite ?Rd; auto.
      * apply (Hnext s (vm_frame_alloc true (mem m)).2).
        { apply step_no_frame; [exact Ea|].
          unfold vm_frame_alloc. rewrite Hs0. reflexivity. }
        rewrite walk_step_no_frame, ptr_add_page; try assumption;
          try reflexivity; rewrite ?Rd; try assumption.
        unfold vm_frame_alloc. rewrite Hs0. reflexivity.
Qed.

(** A not-present fault on a user address whose page has no entry, when
    it passes the eligibility test: the handler's run is a walk from the
    page of the fault, followed by the report. *)
Lemma growth_branch_run cr2 m :
  cr2 < PHYS_BASE ->
  not_present (tf m) = true ->
  spt (mem m) !! pg_round_down cr2 = None ->
  let m1 := (bring_esp_from_thread_struct (user (tf m)) (not_present (tf m))
               (counted m)).2 in
  ptr_sub (esp (tf m1)) 32 <= cr2 ->
  PHYS_BASE - STACK_LIMIT <= cr2 ->
  exists s' w',
    page_fault cr2 m = report s' (set_mem w' m1)
    /\ walked (pg_round_down cr2) (mem m) false w' s'.
Proof.
  intros Hu Hp Hnone m1 He1 He2.
  destruct (page_fault_no_entry cr2 m Hu Hp Hnone) as [Emem Hrun].
  fold m1 in Emem, Hrun.
  rewrite !geb_true_le in Hrun by assumption. cbn [andb] in Hrun.
  assert (R : 0 <= cr2 < PHYS_BASE) by (pose proof PHYS_BASE_lo; lia).
  destruct (walk_length_spec cr2 R) as [Htop Hfuel].
  destruct (stack_walk_walked (walk_length cr2)
              (stack_walk_fuel (pg_round_down cr2))
              (pg_round_down cr2) false m1 Hfuel (pg_round_down_divide cr2)
              (pg_round_down_nonneg cr2 (proj1 R)) Htop)
    as (s' & w' & Hwalk & Hw).
  rewrite Emem in Hw. exists s', w'. split; [|exact Hw].
  rewrite Hrun. apply (bind_ret _ _ _ _ _ Hwalk).
Qed.

Lemma growth_branch_exit cr2 m :
  cr2 < PHYS_BASE ->
  not_present (tf m) = true ->
  spt (mem m) !! pg_round_down cr2 = None ->
  let m1 := (bring_esp_from_thread_struct (user (tf m)) (not_present (tf m))
               (counted m)).2 in
  ~ (ptr_sub (esp (tf m1)) 32 <= cr2 /\ PHYS_BASE - STACK_LIMIT <= cr2) ->
  page_fault cr2 m = (Stop (Exited (-1)), m1).
Proof.
  intros Hu Hp Hnone m1 N.
  destruct (page_fault_no_entry cr2 m Hu Hp Hnone) as [_ Hrun].
  fold m1 in Hrun. rewrite Hrun.
  destruct ((cr2 >=? ptr_sub (esp (tf m1)) 32) && (cr2 >=? PHYS_BASE - STACK_LIMIT))
    eqn:E; [|reflexivity].
  exfalso. apply N. rewrite andb_true_iff, !Z.geb_leb, !Z.leb_le in E. exact E.
Qed.

End Steps.

(** ** What every walk keeps *)

Section Invariants.
Context {plat : Platform} {ldr : Loader} {plat_ok : PlatformOk plat}.

Lemma supply_tail_suffix {A} (l : list A) : tail l `suffix_of` l.
Proof. destruct l as [|x l]; [reflexivity|]. apply suffix_cons_r. reflexivity. Qed.

Lemma supply_tail_length {A} (l : list A) : (length l <= S (length (tail l)))%nat.
Proof. destruct l; simpl; lia. Qed.

Lemma page_step_fields a w s w1 s1 :
  page_step a w s w1 s1 ->
  malloc_junk w1 = malloc_junk w
  /\ install_ok w1 = install_ok w
  /\ frame_supply w1 `suffix_of` frame_supply w
  /\ (length (frame_supply w) <= S (length (frame_supply w1)))%nat.
Proof.
  intros Hstep. inversion Hstep; subst.
  - repeat split; [reflexivity|lia].
  - destruct (vm_frame_alloc_fields true w) as (_ & _ & Ei & _ & Ej & Es).
    rewrite Ei, Ej, Es. auto using supply_tail_suffix, supply_tail_length.
  - destruct (vm_frame_alloc_fields true w) as (_ & _ & Ei & _ & Ej & Es).
    rewrite Ei, Ej, Es. auto using supply_tail_suffix, supply_tail_length.
  - cbn [grown malloc_junk install_ok frame_supply].
    auto using supply_tail_suffix, supply_tail_length.
Qed.

Lemma page_step_table a w s w1 s1 :
  page_step a w s w1 s1 ->
  (spt w1 = spt w /\ pagedir w1 = pagedir w /\ (s1 = s \/ s1 = false))
  \/ (spt w !! a = None /\ s1 = true
      /\ exists kpage, spt w1 = <[a := new_entry a w]> (spt w)
                       /\ pagedir w1 = <[a := (kpage, true)]> (pagedir w)).
Proof.
  intros Hstep. inversion Hstep; subst.
  - left. auto.
  - left. destruct (vm_frame_alloc_fields true w) as (-> & -> & _). auto.
  - left. destruct (vm_frame_alloc_fields true w) as (-> & -> & _). auto.
  - right. split; [assumption|]. split; [reflexivity|]. exists kpage. auto.
Qed.

Lemma grows_only_refl a w : grows_only a w w.
Proof.
  split; [auto|]. split; [|auto]. intros pg e E1 E2. congruence.
Qed.

Lemma walked_grows_only a w s w' s' :
  walked a w s w' s' -> (PGSIZE | a) -> grows_only a w w'.
Proof.
  induction 1 as [a w s N|a w s w1 s1 w' s' L Hstep Hrest IH]; intros D.
  - apply grows_only_refl.
  - assert (D' : (PGSIZE | a + PGSIZE))
      by (apply Z.divide_add_r; [exact D|apply Z.divide_refl]).
    destruct (IH D') as (I1 & I2 & I3 & I4).
    destruct (page_step_fields _ _ _ _ _ Hstep) as (J & _).
    assert (Hnew : forall pg, new_entry pg w1 = new_entry pg w)
      by (intros pg; unfold new_entry; rewrite J; reflexivity).
    destruct (page_step_table _ _ _ _ _ Hstep)
      as [(Es & Ep & _)|(Ea & _ & kpage & Es & Ep)].
    + rewrite Es in I1, I2. split; [exact I1|]. split; [|split].
      * intros pg e E1 E2. destruct (I2 pg e E1 E2) as (-> & On & M').
        rewrite Hnew. split; [reflexivity|]. split; [|exact M'].
        apply on_walk_weaken, On.
      * intros q Nq. rewrite <- Ep. apply I3. intros On.
        apply Nq, on_walk_weaken, On.
      * congruence.
    + split; [|split; [|split]].
      * intros pg e E1. apply I1. rewrite Es.
        rewrite lookup_insert_ne by congruence. exact E1.
      * intros pg e E1 E2. destruct (decide (pg = a)) as [->|Ne].
        -- assert (E3 : spt w' !! a = Some (new_entry a w))
             by (apply I1; rewrite Es; apply lookup_insert_eq).
           split; [congruence|]. split; [apply on_walk_self; assumption|].
           exists kpage. rewrite (I3 a (not_on_walk_next a)), Ep.
           apply lookup_insert_eq.
        -- destruct (I2 pg e) as (-> & On & M'); [|exact E2|].
           { rewrite Es, lookup_insert_ne by congruence. exact E1. }
           rewrite Hnew. split; [reflexivity|]. split; [|exact M'].
           apply on_walk_weaken, On.
      * intros q Nq.
        assert (q <> a) by (intros ->; apply Nq, on_walk_self; assumption).
        rewrite I3 by (intros On; apply Nq, on_walk_weaken, On).
        rewrite Ep. apply lookup_insert_ne. congruence.
      * congruence.
Qed.

Lemma walked_no_frames a w s w' s' :
  walked a w s w' s' -> frame_supply w = [] -> w' = w /\ s' = s.
Proof.
  induction 1 as [a w s N|a w s w1 s1 w' s' L Hstep Hrest IH]; intros E.
  - auto.
  - assert (Ealloc : (vm_frame_alloc true w).2 = w)
      by (unfold vm_frame_alloc; rewrite E; reflexivity).
    inversion Hstep; subst; try congruence.
    + apply IH, E.
    + rewrite Ealloc in *. apply IH, E.
Qed.

Lemma ownerless_alloc kpage w :
  ownerless kpage w -> ownerless kpage (vm_frame_alloc true w).2.
Proof.
  unfold ownerless, vm_frame_alloc. intros O.
  destruct (frame_supply w) as [|[k|] rest]; cbn [snd frame_table]; try exact O.
  destruct (decide (k = kpage)) as [->|Ne].
  - apply lookup_insert_eq.
  - rewrite lookup_insert_ne by assumption. exact O.
Qed.

Lemma walked_refused a w s w' s' :
  walked a w s w' s' ->
  (forall pg, install_ok w pg = false) ->
  spt w' = spt w /\ pagedir w' = pagedir w
  /\ (s = false -> s' = false)
  /\ frame_supply w' `suffix_of` frame_supply w
  /\ (forall kpage, ownerless kpage w -> ownerless kpage w').
Proof.
  induction 1 as [a w s N|a w s w1 s1 w' s' L Hstep Hrest IH]; intros Hin.
  - repeat split; auto.
  - destruct (page_step_fields _ _ _ _ _ Hstep) as (_ & Ei & Hsuf & _).
    destruct IH as (I1 & I2 & I3 & I4 & I5).
    { intros pg. rewrite Ei. apply Hin. }
    assert (Hsuf' : frame_supply w' `suffix_of` frame_supply w)
      by (etrans; eassumption).
    inversion Hstep; subst.
    + auto 10.
    + destruct (vm_frame_alloc_fields true w) as (Es & Ep & _).
      rewrite I1, I2, Es, Ep. repeat split; auto using ownerless_alloc.
    + destruct (vm_frame_alloc_fields true w) as (Es & Ep & _).
      rewrite I1, I2, Es, Ep. repeat split; auto using ownerless_alloc.
    + rewrite Hin in *. discriminate.
Qed.

Lemma walked_supply a w s w' s' :
  walked a w s w' s' ->
  (PGSIZE | a) -> a <= PHYS_BASE - PGSIZE ->
  frame_supply w' `suffix_of` frame_supply w
  /\ (Z.of_nat (length (frame_supply w)) - Z.of_nat (length (frame_supply w')))
       * PGSIZE <= PHYS_BASE - PGSIZE - a.
Proof.
  pose proof PGSIZE_pos as P.
  induction 1 as [a w s N|a w s w1 s1 w' s' L Hstep Hrest IH]; intros D B.
  - split; [reflexivity|]. lia.
  - assert (D' : (PGSIZE | a + PGSIZE))
      by (apply Z.divide_add_r; [exact D|apply Z.divide_refl]).
    assert (Dtop : (PGSIZE | PHYS_BASE - PGSIZE))
      by (apply Z.divide_sub_r; [apply PHYS_BASE_divide|apply Z.divide_refl]).
    pose proof (aligned_next a (PHYS_BASE - PGSIZE) D Dtop L) as B'.
    destruct (IH D' B') as [I1 I2].
    destruct (page_step_fields _ _ _ _ _ Hstep) as (_ & _ & Hsuf & Hlen).
    split; [etrans; eassumption|].
    apply Nat2Z.inj_le in Hlen. rewrite Nat2Z.inj_succ in Hlen.
    set (x := Z.of_nat (length (frame_supply w))) in *.
    set (y := Z.of_nat (length (frame_supply w1))) in *.
    set (z := Z.of_nat (length (frame_supply w'))) in *.
    assert ((x - z) * PGSIZE <= (y - z) * PGSIZE + PGSIZE); [|lia].
    replace ((y - z) * PGSIZE + PGSIZE) with ((y - z + 1) * PGSIZE) by ring.
    apply Z.mul_le_mono_nonneg_r; lia.
Qed.

Lemma walked_success a w s w' s' :
  walked a w s w' s' -> (PGSIZE | a) -> s' = true ->
  s = true
  \/ exists pg, on_walk a pg /\ spt w !! pg = None
                /\ spt w' !! pg = Some (new_entry pg w).
Proof.
  induction 1 as [a w s N|a w s w1 s1 w' s' L Hstep Hrest IH]; intros D S'.
  - left. exact S'.
  - assert (D' : (PGSIZE | a + PGSIZE))
      by (apply Z.divide_add_r; [exact D|apply Z.divide_refl]).
    destruct (page_step_fields _ _ _ _ _ Hstep) as (J & _).
    destruct (page_step_table _ _ _ _ _ Hstep)
      as [(Es & Ep & Hs)|(Ea & S1 & kpage & Es & Ep)].
    + destruct (IH D' S') as [S1|(pg & On & E1 & E2)].
      * destruct Hs; [left|]; congruence.
      * right. exists pg. split; [apply on_walk_weaken, On|].
        rewrite <- Es. split; [exact E1|]. rewrite E2.
        unfold new_entry. rewrite J. reflexivity.
    + right. exists a. split; [apply on_walk_self; assumption|].
      split; [exact Ea|].
      destruct (walked_grows_only _ _ _ _ _ Hrest D') as (I1 & _).
      apply I1. rewrite Es. apply lookup_insert_eq.
Qed.

Lemma report_mem s m : mem (report s m).2 = mem m.
Proof.
  unfold report. destruct s; cbn [negb]; [reflexivity|].
  destruct (@kill_run _ unit m) as (o & -> & _). reflexivity.
Qed.

Lemma report_false m : report false m = kill m.
Proof. reflexivity. Qed.

(** ** Faults the handler does not resolve *)

Lemma page_fault_unresolvable cr2 m :
  is_user_vaddr cr2 && not_present (tf m) = false ->
  exists o m', page_fault cr2 m = (Stop o, m') /\ mem m' = mem m.
Proof.
  intros C. rewrite page_fault_run, bind_run.
  unfold exit_if_user_access_in_kernel.
  destruct (is_kernel_vaddr cr2 && user (tf m));
    [exists (Exited (-1)), (counted m); split; reflexivity|].
  rewrite ret_run, bind_run.
  assert (W : (exists o, write_on_nonwritable_page cr2 (not_present (tf m))
                           (write (tf m)) (counted m) = (Stop o, counted m))
              \/ write_on_nonwritable_page cr2 (not_present (tf m))
                   (write (tf m)) (counted m) = (Ret tt, counted m)).
  { unfold write_on_nonwritable_page.
    destruct (is_user_vaddr cr2 && negb (not_present (tf m)) && write (tf m));
      [|right; reflexivity].
    rewrite bind_run. unfold ptable_lookup. cbv beta iota.
    destruct (spt (mem (counted m)) !! pg_round_down cr2) as [pg|];
      [|left; eexists; reflexivity].
    destruct (negb (writable pg)); [left; eexists|right]; reflexivity. }
  destruct W as [[o ->]| ->]; [exists o, (counted m); split; reflexivity|].
  rewrite (bind_ret _ _ _ _ tt (bring_esp_run _ _ _)).
  rewrite bind_run. unfold resolve. rewrite C, ret_run.
  rewrite report_false.
  match goal with |- context [ kill ?x ] =>
    destruct (@kill_run _ unit x) as (o & -> & _); exists o, x end.
  split; [reflexivity|]. rewrite bring_esp_mem. reflexivity.
Qed.

(** X1: the handler returns to the faulting instruction only for a
    not-present fault on a user address; for every other fault (a rights
    violation, or an address at or above PHYS_BASE) it ends in an exit, a
    kill or a null dereference, and the virtual-memory state is as it was. *)
Theorem only_not_present_user_faults_resolve (cr2 : Z) (m : machine) :
  ((page_fault cr2 m).1 = Ret tt ->
   cr2 < PHYS_BASE /\ not_present (tf m) = true)
  /\ (~ (cr2 < PHYS_BASE /\ not_present (tf m) = true) ->
      (page_fault cr2 m).1 <> Ret tt
      /\ mem (page_fault cr2 m).2 = mem m).
Proof.
  destruct (is_user_vaddr cr2 && not_present (tf m)) eqn:C.
  - apply andb_true_iff in C as [Cu Cp]. apply Z.ltb_lt in Cu.
    split; [auto|]. intros N. exfalso. auto.
  - destruct (page_fault_unresolvable cr2 m C) as (o & m' & E & Em).
    rewrite E. cbn [fst snd]. split; [discriminate|]. intros _.
    split; [discriminate|exact Em].
Qed.

(** X2: a kernel-context fault on an address at or above PHYS_BASE is
    never resolved and touches no virtual-memory state: it goes to [kill]
    after the recovery step, which panics the kernel when the trap frame
    carries the kernel code selector and ends the thread when it carries
    the user code selector. *)
Theorem kernel_fault_on_kernel_address (cr2 : Z) (m : machine) :
  user (tf m) = false ->
  PHYS_BASE <= cr2 ->
  let m1 := (bring_esp_from_thread_struct false (not_present (tf m))
               (counted m)).2 in
  page_fault cr2 m = kill m1
  /\ mem m1 = mem m
  /\ (cs (tf m) = SEL_UCSEG -> page_fault cr2 m = (Stop ThreadExit, m1))
  /\ (cs (tf m) <> SEL_UCSEG -> cs (tf m) = SEL_KCSEG ->
      page_fault cr2 m = (Stop Panic, m1)).
Proof.
  intros Hu Hk m1.
  assert (Eu : is_user_vaddr cr2 = false) by (apply Z.ltb_ge; exact Hk).
  assert (E : page_fault cr2 m = kill m1).
  { rewrite page_fault_run, Hu.
    rewrite (bind_ret _ _ _ (counted m) tt)
      by (apply exit_check_passes, andb_false_r).
    rewrite (bind_ret _ _ _ (counted m) tt)
      by (apply write_check_skipped; rewrite Eu; reflexivity).
    rewrite (bind_ret _ _ _ _ tt (bring_esp_run _ _ _)).
    rewrite bind_run. unfold resolve. rewrite Eu. reflexivity. }
  assert (Ecs : cs (tf m1) = cs (tf m)).
  { unfold m1, bring_esp_from_thread_struct.
    match goal with |- context [ if ?c then _ else _ ] => destruct c end;
      reflexivity. }
  split; [exact E|]. split; [unfold m1; rewrite bring_esp_mem; reflexivity|].
  split.
  - intros Hc. rewrite E. unfold kill. rewrite Ecs, Hc, Z.eqb_refl. reflexivity.
  - intros Hn Hc. rewrite E. unfold kill. rewrite Ecs.
    replace (cs (tf m) =? SEL_UCSEG) with false
      by (symmetry; apply Z.eqb_neq; exact Hn).
    rewrite Hc, Z.eqb_refl. reflexivity.
Qed.

(** X3: for a kernel-context, not-present fault on a user address whose
    page has no entry, the stack pointer the eligibility test uses depends
    on what the trap frame holds.  A frame value at or below
    PHYS_BASE - STACK_LIMIT is replaced, so the test runs against
    thread_current ()->esp.  A frame value that is a kernel address, 32
    bytes or more above PHYS_BASE, is kept, no user address passes the test
    against it, and the run ends in system_exit (-1) without looking at the
    saved stack pointer. *)
Theorem kernel_fault_stack_pointer (cr2 : Z) (m : machine) :
  user (tf m) = false ->
  not_present (tf m) = true ->
  cr2 < PHYS_BASE ->
  spt (mem m) !! pg_round_down cr2 = None ->
  (esp (tf m) <= PHYS_BASE - STACK_LIMIT ->
   let m1 := set_esp (thread_esp (mem m)) (counted m) in
   (ptr_sub (thread_esp (mem m)) 32 <= cr2 /\ PHYS_BASE - STACK_LIMIT <= cr2 ->
    page_fault cr2 m =
    (stack_walk (stack_walk_fuel (pg_round_down cr2)) (pg_round_down cr2) false
       ≫= report) m1)
   /\ (~ (ptr_sub (thread_esp (mem m)) 32 <= cr2
          /\ PHYS_BASE - STACK_LIMIT <= cr2) ->
       page_fault cr2 m = (Stop (Exited (-1)), m1)))
  /\ (PHYS_BASE + 32 <= esp (tf m) < ptr_modulus ->
      page_fault cr2 m = (Stop (Exited (-1)), counted m)).
Proof.
  intros Hu Hp Hlt Hnone.
  destruct (page_fault_no_entry cr2 m Hlt Hp Hnone) as [_ Hrun].
  rewrite Hu, Hp in Hrun. split.
  - intros Hlow m1.
    assert (Eb : (bring_esp_from_thread_struct false true (counted m)).2 = m1).
    { unfold bring_esp_from_thread_struct. rewrite ptr_sub_limit.
      change (tf (counted m)) with (tf m).
      replace (esp (tf m) <=? PHYS_BASE - STACK_LIMIT) with true
        by (symmetry; apply Z.leb_le; exact Hlow).
      reflexivity. }
    rewrite Eb in Hrun.
    change (esp (tf m1)) with (thread_esp (mem m)) in Hrun.
    split.
    + intros [E1 E2]. rewrite Hrun, !geb_true_le by assumption. reflexivity.
    + intros N. rewrite Hrun.
      destruct ((cr2 >=? ptr_sub (thread_esp (mem m)) 32)
                && (cr2 >=? PHYS_BASE - STACK_LIMIT)) eqn:E; [|reflexivity].
      exfalso. apply N.
      rewrite andb_true_iff, !Z.geb_leb, !Z.leb_le in E. exact E.
  - intros [Hlo Hhi].
    rewrite bring_esp_high in Hrun
      by (pose proof PHYS_BASE_lo; unfold STACK_LIMIT in *; lia).
    cbn [snd] in Hrun. change (tf (counted m)) with (tf m) in Hrun.
    assert (E32 : ptr_sub (esp (tf m)) 32 = esp (tf m) - 32).
    { unfold ptr_sub. apply Z.mod_small.
      pose proof PHYS_BASE_lo. unfold STACK_LIMIT in *. lia. }
    rewrite Hrun, E32, geb_false_lt by lia. reflexivity.
Qed.

(** ** Growth under any collaborators *)

(** X4: a fault that takes the growth branch never removes or changes an
    entry of the supplemental page table, whatever the frame provider and
    the installer answer.  An entry it adds is the one the loop builds
    (resident, writable, no file) for a page between the page of the fault
    and the top stack page, and comes with a writable mapping; mappings of
    pages outside that range stay as they were. *)
Theorem growth_keeps_entries (cr2 : Z) (m : machine) :
  cr2 < PHYS_BASE ->
  not_present (tf m) = true ->
  spt (mem m) !! pg_round_down cr2 = None ->
  grows_only (pg_round_down cr2) (mem m) (mem (page_fault cr2 m).2).
Proof.
  intros Hu Hp Hnone.
  set (m1 := (bring_esp_from_thread_struct (user (tf m)) (not_present (tf m))
                (counted m)).2).
  destruct (decide (ptr_sub (esp (tf m1)) 32 <= cr2
                    /\ PHYS_BASE - STACK_LIMIT <= cr2)) as [[E1 E2]|N].
  - destruct (growth_branch_run cr2 m Hu Hp Hnone E1 E2) as (s' & w' & -> & Hw).
    rewrite report_mem. cbn [mem set_mem].
    apply (walked_grows_only _ _ _ _ _ Hw), pg_round_down_divide.
  - rewrite (growth_branch_exit cr2 m Hu Hp Hnone N). cbn [snd].
    rewrite bring_esp_mem. apply grows_only_refl.
Qed.

(** X5: when the handler returns from a fault of the growth branch, the
    walk has created at least one entry with its writable mapping, for a
    page between the page of the fault and the top stack page that had no
    entry. *)
Theorem resolved_growth_mapped_a_page (cr2 : Z) (m : machine) :
  cr2 < PHYS_BASE ->
  not_present (tf m) = true ->
  spt (mem m) !! pg_round_down cr2 = None ->
  (page_fault cr2 m).1 = Ret tt ->
  exists pg kpage,
    on_walk (pg_round_down cr2) pg
    /\ spt (mem m) !! pg = None
    /\ spt (mem (page_fault cr2 m).2) !! pg = Some (new_entry pg (mem m))
    /\ pagedir (mem (page_fault cr2 m).2) !! pg = Some (kpage, true).
Proof.
  intros Hu Hp Hnone Hret.
  set (m1 := (bring_esp_from_thread_struct (user (tf m)) (not_present (tf m))
                (counted m)).2).
  destruct (decide (ptr_sub (esp (tf m1)) 32 <= cr2
                    /\ PHYS_BASE - STACK_LIMIT <= cr2)) as [[E1 E2]|N].
  - destruct (growth_branch_run cr2 m Hu Hp Hnone E1 E2) as (s' & w' & E & Hw).
    rewrite E in *. clear E.
    destruct s'.
    + destruct (walked_success _ _ _ _ _ Hw (pg_round_down_divide cr2) eq_refl)
        as [?|(pg & On & En & Es)]; [discriminate|].
      destruct (walked_grows_only _ _ _ _ _ Hw (pg_round_down_divide cr2))
        as (_ & I2 & _).
      destruct (I2 pg _ En Es) as (_ & _ & kpage & Ek).
      exists pg, kpage. cbn [report negb snd mem set_mem mret M_ret]. auto.
    + rewrite report_false in Hret.
      match type of Hret with context [ kill ?x ] =>
        destruct (@kill_run _ unit x) as (o & Ek & _); rewrite Ek in Hret end.
      discriminate.
  - rewrite (growth_branch_exit cr2 m Hu Hp Hnone N) in Hret. discriminate.
Qed.

(** X6: when the frame provider has nothing to give, an eligible growth
    fault goes to [kill] and leaves the virtual-memory state as it was: no
    entry, no mapping, no frame. *)
Theorem growth_out_of_frames (cr2 : Z) (m : machine) :
  cr2 < PHYS_BASE ->
  not_present (tf m) = true ->
  spt (mem m) !! pg_round_down cr2 = None ->
  let m1 := (bring_esp_from_thread_struct (user (tf m)) (not_present (tf m))
               (counted m)).2 in
  ptr_sub (esp (tf m1)) 32 <= cr2 ->
  PHYS_BASE - STACK_LIMIT <= cr2 ->
  frame_supply (mem m) = [] ->
  page_fault cr2 m = kill m1 /\ mem m1 = mem m.
Proof.
  intros Hu Hp Hnone m1 E1 E2 Hsup.
  assert (Emem : mem m1 = mem m)
    by (unfold m1; rewrite bring_esp_mem; reflexivity).
  split; [|exact Emem].
  destruct (growth_branch_run cr2 m Hu Hp Hnone E1 E2) as (s' & w' & -> & Hw).
  destruct (walked_no_frames _ _ _ _ _ Hw Hsup) as [-> ->].
  fold m1. rewrite <- Emem, set_mem_same. reflexivity.
Qed.

(** X7: when the installer refuses every mapping, an eligible growth fault
    below the top stack page goes to [kill] with the page table and the
    mappings as they were, but the frames it took are not given back: the
    supply is shorter, and the first frame taken stays in the frame table,
    zero-filled and without owner. *)
Theorem growth_install_refused (cr2 : Z) (m : machine) (kpage : Z)
    (rest : list (option Z)) :
  cr2 < PHYS_BASE ->
  not_present (tf m) = true ->
  spt (mem m) !! pg_round_down cr2 = None ->
  let m1 := (bring_esp_from_thread_struct (user (tf m)) (not_present (tf m))
               (counted m)).2 in
  ptr_sub (esp (tf m1)) 32 <= cr2 ->
  PHYS_BASE - STACK_LIMIT <= cr2 ->
  pg_round_down cr2 < PHYS_BASE - PGSIZE ->
  (forall pg, install_ok (mem m) pg = false) ->
  frame_supply (mem m) = Some kpage :: rest ->
  exists w',
    page_fault cr2 m = kill (set_mem w' m1)
    /\ spt w' = spt (mem m)
    /\ pagedir w' = pagedir (mem m)
    /\ ownerless kpage w'
    /\ (length (frame_supply w') < length (frame_supply (mem m)))%nat.
Proof.
  intros Hu Hp Hnone m1 E1 E2 Hlt Hin Hsup.
  destruct (growth_branch_run cr2 m Hu Hp Hnone E1 E2) as (s' & w' & E & Hw).
  fold m1 in E. exists w'.
  inversion Hw as [|a w s w1 s1 w2 s2 L Hstep Hrest]; subst; [contradiction|].
  assert (Ealloc : vm_frame_alloc true (mem m) =
    (Some kpage,
     {| spt := spt (mem m); pagedir := pagedir (mem m);
        frame_table :=
          <[kpage := {| zero_filled := true; alloc_page := None |}]>
            (frame_table (mem m));
        frame_supply := rest; install_ok := install_ok (mem m);
        thread_esp := thread_esp (mem m); malloc_junk := malloc_junk (mem m) |}))
    by (unfold vm_frame_alloc; rewrite Hsup; reflexivity).
  inversion Hstep; subst; try congruence.
  - rewrite Ealloc in *. discriminate.
  - destruct (walked_refused _ _ _ _ _ Hrest) as (I1 & I2 & I3 & I4 & I5).
    { intros pg. destruct (vm_frame_alloc_fields true (mem m)) as (_ & _ & -> & _).
      apply Hin. }
    rewrite Ealloc in *. cbn [snd spt pagedir frame_supply] in *.
    rewrite (I3 eq_refl) in E.
    split; [exact E|]. split; [exact I1|]. split; [exact I2|]. split.
    + apply I5. unfold ownerless. cbn [frame_table]. apply lookup_insert_eq.
    + apply suffix_length in I4. rewrite Hsup. cbn [length]. lia.
Qed.

(** X8: the growth loop always ends, and one fault takes at most
    STACK_LIMIT / PGSIZE frames from the provider, in the order the
    provider hands them out. *)
Theorem growth_frames_bounded (cr2 : Z) (m : machine) :
  cr2 < PHYS_BASE ->
  not_present (tf m) = true ->
  spt (mem m) !! pg_round_down cr2 = None ->
  (page_fault cr2 m).1 <> Stop OutOfFuel
  /\ frame_supply (mem (page_fault cr2 m).2) `suffix_of` frame_supply (mem m)
  /\ (length (frame_supply (mem m))
      <= length (frame_supply (mem (page_fault cr2 m).2))
         + Z.to_nat (STACK_LIMIT / PGSIZE))%nat.
Proof.
  intros Hu Hp Hnone. split; [apply page_fault_total|].
  pose proof PGSIZE_pos as P.
  set (m1 := (bring_esp_from_thread_struct (user (tf m)) (not_present (tf m))
                (counted m)).2).
  destruct (decide (ptr_sub (esp (tf m1)) 32 <= cr2
                    /\ PHYS_BASE - STACK_LIMIT <= cr2)) as [[E1 E2]|N].
  - destruct (growth_branch_run cr2 m Hu Hp Hnone E1 E2) as (s' & w' & -> & Hw).
    rewrite report_mem. cbn [mem set_mem].
    destruct (walked_supply _ _ _ _ _ Hw (pg_round_down_divide cr2)
                (pg_round_down_below_top cr2 Hu)) as [Hsuf Hlen].
    split; [exact Hsuf|].
    pose proof (pg_round_down_bounds cr2) as B.
    apply suffix_length in Hsuf.
    set (x := length (frame_supply (mem m))) in *.
    set (z := length (frame_supply w')) in *.
    assert (Hq : Z.of_nat x - Z.of_nat z <= STACK_LIMIT / PGSIZE).
    { apply Z.div_le_lower_bound; [exact P|].
      rewrite Z.mul_comm. lia. }
    generalize dependent (STACK_LIMIT / PGSIZE). intros q Hq. lia.
  - rewrite (growth_branch_exit cr2 m Hu Hp Hnone N). cbn [snd].
    rewrite bring_esp_mem. change (mem (counted m)) with (mem m).
    split; [reflexivity|]. apply Nat.le_add_r.
Qed.

(** X9: growth is not re-entrant.  After a growth fault that resolved with
    collaborators that did not fail, a further not-present fault at the
    same address finds the entry the walk created; the entry is resident,
    so the handler goes to [kill] and leaves the virtual-memory state as
    it is. *)
Theorem refault_after_growth (cr2 : Z) (m : machine) (f' : intr_frame) :
  cr2 < PHYS_BASE ->
  not_present (tf m) = true ->
  spt (mem m) !! pg_round_down cr2 = None ->
  let m1 := (bring_esp_from_thread_struct (user (tf m)) (not_present (tf m))
               (counted m)).2 in
  ptr_sub (esp (tf m1)) 32 <= cr2 ->
  PHYS_BASE - STACK_LIMIT <= cr2 ->
  pg_round_down cr2 < PHYS_BASE - PGSIZE ->
  (forall pg, install_ok (mem m) pg = true) ->
  (forall i, (i < walk_length cr2)%nat ->
     exists kpage, frame_supply (mem m) !! i = Some (Some kpage)) ->
  not_present f' = true ->
  exists m',
    page_fault cr2 m = (Ret tt, m')
    /\ exists o m'',
         page_fault cr2 (set_tf f' m') = (Stop o, m'')
         /\ (o = ThreadExit \/ o = Panic)
         /\ mem m'' = mem m'.
Proof.
  intros Hu Hp Hnone m1 He1 He2 Hlt Hinst Hsup Hp'.
  destruct (page_fault_no_entry cr2 m Hu Hp Hnone) as [Emem Hrun].
  fold m1 in Emem, Hrun.
  rewrite !geb_true_le in Hrun by assumption. cbn [andb] in Hrun.
  assert (R : 0 <= cr2 < PHYS_BASE) by (pose proof PHYS_BASE_lo; lia).
  destruct (walk_length_spec cr2 R) as [Htop Hfuel].
  destruct (walk_grows (walk_length cr2) (stack_walk_fuel (pg_round_down cr2))
              (pg_round_down cr2) false m1 Hfuel (pg_round_down_divide cr2)
              (pg_round_down_nonneg cr2 (proj1 R)) Htop)
    as (s' & w' & Hwalk & Hs & Heff).
  { rewrite Emem. exact Hinst. }
  { rewrite Emem. exact Hsup. }
  rewrite Emem in Hs, Heff.
  assert (On : on_walk (pg_round_down cr2) (pg_round_down cr2))
    by (apply on_walk_self; [apply pg_round_down_divide|exact Hlt]).
  rewrite Hs in Hwalk by (right; exists (pg_round_down cr2); auto).
  exists (set_mem w' m1). split.
  { rewrite Hrun, (bind_ret _ _ _ _ _ Hwalk). reflexivity. }
  destruct Heff as (_ & Heff & _). specialize (Heff _ On).
  rewrite Hnone in Heff. destruct Heff as [Hentry _].
  set (m2 := set_tf f' (set_mem w' m1)).
  rewrite (page_fault_not_present cr2 m2 Hu Hp').
  set (m3 := (bring_esp_from_thread_struct (user (tf m2)) true (counted m2)).2).
  assert (Em3 : mem m3 = w') by (unfold m3; rewrite bring_esp_mem; reflexivity).
  rewrite bind_run. unfold resolve. rewrite is_user_vaddr_lt by assumption.
  cbn [andb]. rewrite bind_run. unfold ptable_lookup at 1. cbv beta iota.
  rewrite Em3, Hentry. cbn [new_entry loaded negb]. rewrite ret_run.
  rewrite report_false.
  destruct (@kill_run _ unit m3) as (o & -> & Ho).
  exists o, m3. auto.
Qed.

(** ** The counter and the registrations *)

Lemma page_fault_counts cr2 m :
  0 <= page_fault_cnt m < LLONG_MAX ->
  page_fault_cnt (page_fault cr2 m).2 = page_fault_cnt m + 1.
Proof.
  intros R. rewrite page_fault_run.
  rewrite cnt_blind_keeps_cnt by apply cnt_blind_after_count.
  unfold counted. cbn [page_fault_cnt set_cnt].
  apply wrap_ll_small. unfold LLONG_MAX in *. lia.
Qed.

(** X10: over any series of page faults, whatever their outcomes, the
    counter goes up by one per fault, as long as it stays within a 64-bit
    signed integer; exception_print_stats then prints the number of faults
    handled so far. *)
Theorem fault_count_reported (faults : list (Z * intr_frame)) (m : machine) :
  0 <= page_fault_cnt m ->
  page_fault_cnt m + Z.of_nat (length faults) <= LLONG_MAX ->
  page_fault_cnt (handle_faults faults m)
    = page_fault_cnt m + Z.of_nat (length faults)
  /\ exception_print_stats (handle_faults faults m)
     = "Exception: "
       +:+ pretty (page_fault_cnt m + Z.of_nat (length faults))
       +:+ " page faults" +:+ String (Ascii.ascii_of_nat 10) EmptyString.
Proof.
  intros H0 Hmax.
  assert (E : page_fault_cnt (handle_faults faults m)
              = page_fault_cnt m + Z.of_nat (length faults)).
  { revert m H0 Hmax. induction faults as [|[cr2 f] faults IH]; intros m H0 Hmax.
    - cbn. lia.
    - cbn [handle_faults]. cbn [length] in *. rewrite Nat2Z.inj_succ in *.
      pose proof (page_fault_counts cr2 (set_tf f m)) as C.
      change (page_fault_cnt (set_tf f m)) with (page_fault_cnt m) in C.
      rewrite IH; lia. }
  split; [exact E|]. unfold exception_print_stats. rewrite E. reflexivity.
Qed.

(** X11: of the exceptions exception_init registers, each vector is
    registered once.  Only vector 14, the page fault, is entered with
    interrupts off and handled by [page_fault], at privilege level 0; the
    vectors a user program may raise itself (level 3) are 3, 4 and 5.
    Every registered exception other than the page fault ends the thread
    or panics the kernel, whatever the machine, and leaves the machine as
    it was. *)
Theorem registered_exceptions :
  NoDup (vec_no <$> exception_init)
  /\ forall r, r ∈ exception_init ->
       (vec_no r = 14 <-> handler r = handler_page_fault)
       /\ (vec_no r = 14 <-> level r = INTR_OFF)
       /\ (vec_no r = 14 -> dpl r = 0)
       /\ (dpl r = 3 <-> vec_no r ∈ [3; 4; 5])
       /\ (vec_no r <> 14 ->
           forall cr2 m, exists o,
             run_handler (handler r) cr2 m = (Stop o, m)
             /\ (o = ThreadExit \/ o = Panic)).
Proof.
  split.
  - apply (bool_decide_unpack _). vm_compute. exact I.
  - intros r Hr. unfold exception_init in Hr.
    repeat (apply elem_of_cons in Hr as [->|Hr]);
      [..|apply elem_of_nil in Hr; contradiction];
      cbn [intr_register_int vec_no dpl level handler];
      (split; [split; (discriminate || reflexivity || lia)|]);
      (split; [split; (discriminate || reflexivity || lia)|]);
      (split; [intros; (reflexivity || lia)|]);
      (split; [rewrite !elem_of_cons, elem_of_nil; split; intros; lia|]);
      intros N cr2 m; try lia; apply kill_run.
Qed.

End Invariants.

(** ** The scenarios of the further properties *)

(** A growth fault that resolves, and a user fault in the kernel's range. *)
Lemma only_not_present_user_faults_resolve_witness :
  let pg := stack_top - 3 * page_bytes in
  let w :=
    scenario_vm {[ stack_top - page_bytes := stack_entry (stack_top - page_bytes) ]}
      [Some 100; Some 101] in
  let mk := scenario 4 stack_top (scenario_vm ∅ []) in
  (pg + 8 < PHYS_BASE (Platform:=pintos)
   /\ not_present (plat:=pintos) (tf (scenario 6 (pg + 8) w)) = true)
  /\ mem (pintos_page_fault (stack_top + 16) mk).2 = mem mk.
Proof.
  intros pg w mk. split.
  - apply (proj1 (only_not_present_user_faults_resolve (plat:=pintos)
                    (ldr:=scenario_loader) (pg + 8) (scenario 6 (pg + 8) w))).
    vm_compute. reflexivity.
  - apply (proj2 (only_not_present_user_faults_resolve (plat:=pintos)
                    (ldr:=scenario_loader) (stack_top + 16) mk)).
    intros [L _]. vm_compute in L. discriminate L.
Defined.

(** A fault of kernel code on a kernel address. *)
Lemma kernel_fault_on_kernel_address_witness :
  let m := kernel_scenario 0 (stack_top + 8192) (scenario_vm ∅ []) in
  pintos_page_fault (stack_top + 16) m = (Stop Panic, counted m).
Proof.
  intros m.
  destruct (kernel_fault_on_kernel_address (plat:=pintos) (ldr:=scenario_loader)
              (stack_top + 16) m) as (_ & _ & _ & Hpanic).
  - reflexivity.
  - vm_compute. congruence.
  - apply Hpanic; vm_compute; congruence.
Defined.

(** A system call touching an unmapped stack address: once with a stale
    stack pointer of 0 in the trap frame, once with a kernel stack pointer
    in it. *)
Lemma kernel_fault_stack_pointer_witness :
  let w := scenario_vm ∅ [Some 100] in
  let a := stack_top - 2 * page_bytes - 4 in
  pintos_page_fault a (kernel_scenario 0 0 w)
    = (Stop (Exited (-1)), set_esp stack_top (counted (kernel_scenario 0 0 w)))
  /\ pintos_page_fault a (kernel_scenario 0 (stack_top + 8192) w)
     = (Stop (Exited (-1)), counted (kernel_scenario 0 (stack_top + 8192) w)).
Proof.
  intros w a. split.
  - destruct (kernel_fault_stack_pointer (plat:=pintos) (ldr:=scenario_loader)
                (plat_ok:=pintos_ok) a (kernel_scenario 0 0 w))
      as [Hlow _]; [reflexivity|reflexivity|vm_compute; reflexivity
                   |vm_compute; reflexivity|].
    apply Hlow; [vm_compute; congruence|].
    intros [L _]. vm_compute in L. congruence.
  - destruct (kernel_fault_stack_pointer (plat:=pintos) (ldr:=scenario_loader)
                (plat_ok:=pintos_ok) a (kernel_scenario 0 (stack_top + 8192) w))
      as [_ Hhigh]; [reflexivity|reflexivity|vm_compute; reflexivity
                    |vm_compute; reflexivity|].
    apply Hhigh. split; vm_compute; congruence.
Defined.

(** A walk of two pages in which the frame provider fails once. *)
Lemma growth_keeps_entries_witness :
  let pg := stack_top - 3 * page_bytes in
  let w :=
    scenario_vm {[ stack_top - page_bytes := stack_entry (stack_top - page_bytes) ]}
      [None; Some 100] in
  grows_only (plat:=pintos) pg w
    (mem (pintos_page_fault (pg + 8) (scenario 6 (pg + 8) w)).2).
Proof.
  intros pg w.
  replace pg with (pg_round_down (plat:=pintos) (pg + 8)) at 1
    by (vm_compute; reflexivity).
  apply (growth_keeps_entries (plat:=pintos) (ldr:=scenario_loader)
           (plat_ok:=pintos_ok) (pg + 8) (scenario 6 (pg + 8) w)).
  - vm_compute. reflexivity.
  - reflexivity.
  - vm_compute. reflexivity.
Defined.

Lemma resolved_growth_mapped_a_page_witness :
  let pg := stack_top - 3 * page_bytes in
  let w :=
    scenario_vm {[ stack_top - page_bytes := stack_entry (stack_top - page_bytes) ]}
      [None; Some 100] in
  let r := pintos_page_fault (pg + 8) (scenario 6 (pg + 8) w) in
  exists q kpage,
    on_walk (plat:=pintos) (pg_round_down (plat:=pintos) (pg + 8)) q
    /\ spt w !! q = None
    /\ spt (mem r.2) !! q = Some (new_entry q w)
    /\ pagedir (mem r.2) !! q = Some (kpage, true).
Proof.
  intros pg w r.
  apply (resolved_growth_mapped_a_page (plat:=pintos) (ldr:=scenario_loader)
           (plat_ok:=pintos_ok) (pg + 8) (scenario 6 (pg + 8) w)).
  - vm_compute. reflexivity.
  - reflexivity.
  - vm_compute. reflexivity.
  - vm_compute. reflexivity.
Defined.

(** The same fault when the frame provider has nothing. *)
Lemma growth_out_of_frames_witness :
  let pg := stack_top - 3 * page_bytes in
  let m := scenario 6 (pg + 8) (scenario_vm ∅ []) in
  pintos_page_fault (pg + 8) m = (Stop ThreadExit, counted m).
Proof.
  intros pg m.
  destruct (growth_out_of_frames (plat:=pintos) (ldr:=scenario_loader)
              (plat_ok:=pintos_ok) (pg + 8) m) as [E _].
  - vm_compute. reflexivity.
  - reflexivity.
  - vm_compute. reflexivity.
  - vm_compute. congruence.
  - vm_compute. congruence.
  - reflexivity.
  - unfold pintos_page_fault. rewrite E. vm_compute. reflexivity.
Defined.

(** The same fault when the installer refuses. *)
Lemma growth_install_refused_witness :
  let pg := stack_top - 3 * page_bytes in
  let m := scenario 6 (pg + 8) (refusing_vm ∅ [Some 100; Some 101; Some 102]) in
  exists w',
    (pintos_page_fault (pg + 8) m).1 = Stop ThreadExit
    /\ spt w' = ∅ /\ pagedir w' = ∅ /\ ownerless 100 w'
    /\ (length (frame_supply w') < 3)%nat.
Proof.
  intros pg m.
  destruct (growth_install_refused (plat:=pintos) (ldr:=scenario_loader)
              (plat_ok:=pintos_ok) (pg + 8) m 100 [Some 101; Some 102])
    as (w' & E & Es & Ep & Ho & Hl).
  - vm_compute. reflexivity.
  - reflexivity.
  - vm_compute. reflexivity.
  - vm_compute. congruence.
  - vm_compute. congruence.
  - vm_compute. reflexivity.
  - intros q. reflexivity.
  - reflexivity.
  - exists w'. split; [vm_compute; reflexivity|]. auto.
Defined.

Lemma growth_frames_bounded_witness :
  let pg := stack_top - 3 * page_bytes in
  let w :=
    scenario_vm {[ stack_top - page_bytes := stack_entry (stack_top - page_bytes) ]}
      [Some 100; Some 101; Some 102] in
  let r := pintos_page_fault (pg + 8) (scenario 6 (pg + 8) w) in
  r.1 <> Stop OutOfFuel
  /\ frame_supply (mem r.2) `suffix_of` frame_supply w
  /\ (3 <= length (frame_supply (mem r.2)) + 2048)%nat.
Proof.
  intros pg w r.
  apply (growth_frames_bounded (plat:=pintos) (ldr:=scenario_loader)
           (plat_ok:=pintos_ok) (pg + 8) (scenario 6 (pg + 8) w)).
  - vm_compute. reflexivity.
  - reflexivity.
  - vm_compute. reflexivity.
Defined.

(** The fault of the growth scenario, taken a second time. *)
Lemma refault_after_growth_witness :
  let pg := stack_top - 3 * page_bytes in
  let w :=
    scenario_vm {[ stack_top - page_bytes := stack_entry (stack_top - page_bytes) ]}
      [Some 100; Some 101] in
  let m := scenario 6 (pg + 8) w in
  exists m',
    pintos_page_fault (pg + 8) m = (Ret tt, m')
    /\ exists o m'',
         pintos_page_fault (pg + 8) (set_tf (tf m) m') = (Stop o, m'')
         /\ (o = ThreadExit \/ o = Panic)
         /\ mem m'' = mem m'.
Proof.
  intros pg w m.
  apply (refault_after_growth (plat:=pintos) (ldr:=scenario_loader)
           (plat_ok:=pintos_ok) (pg + 8) m (tf m)).
  - vm_compute. reflexivity.
  - reflexivity.
  - vm_compute. reflexivity.
  - vm_compute. congruence.
  - vm_compute. congruence.
  - vm_compute. reflexivity.
  - intros q. reflexivity.
  - intros i Hi.
    assert (E : walk_length (plat:=pintos) (pg + 8) = 2%nat)
      by (vm_compute; reflexivity).
    rewrite E in Hi.
    destruct i as [|[|i]]; [exists 100; reflexivity|exists 101; reflexivity|lia].
  - reflexivity.
Defined.

(** Three faults from boot: one resolved, one exited, one killed. *)
Lemma fault_count_reported_witness :
  let pg := stack_top - 3 * page_bytes in
  let boot := scenario 0 0 (scenario_vm ∅ [Some 100; Some 101]) in
  let f code sp := {| error_code := code; cs := 27; esp := sp |} in
  let faults := [(pg + 8, f 6 (pg + 8)); (stack_top + 16, f 4 pg); (pg, f 7 pg)] in
  page_fault_cnt (handle_faults (plat:=pintos) (ldr:=scenario_loader) faults boot) = 3
  /\ exception_print_stats
       (handle_faults (plat:=pintos) (ldr:=scenario_loader) faults boot)
     = "Exception: 3 page faults" +:+ String (Ascii.ascii_of_nat 10) EmptyString.
Proof.
  intros pg boot f faults.
  apply (fault_count_reported (plat:=pintos) (ldr:=scenario_loader) faults boot).
  - vm_compute. congruence.
  - vm_compute. congruence.
Defined.

(** The registrations of the general-protection fault and of the page
    fault. *)
Lemma registered_exceptions_witness :
  let gp := intr_register_int 13 0 INTR_ON handler_kill
              "#GP General Protection Exception" in
  let m := scenario 0 stack_top (scenario_vm ∅ []) in
  (exists o, run_handler (plat:=pintos) (ldr:=scenario_loader) (handler gp) 0 m
             = (Stop o, m)
             /\ (o = ThreadExit \/ o = Panic))
  /\ NoDup (vec_no <$> exception_init).
Proof.
  intros gp m.
  destruct (registered_exceptions (plat:=pintos) (ldr:=scenario_loader))
    as [Hnodup Hall].
  split; [|exact Hnodup].
  destruct (Hall gp) as (_ & _ & _ & _ & Hkill).
  - unfold exception_init, gp. rewrite !elem_of_cons. auto 20.
  - apply Hkill. vm_compute. congruence.
Defined.

(** ** Growth at the boundary of the stack, and the backing variants *)

Section Boundary.
Context {plat : Platform} {ldr : Loader} {plat_ok : PlatformOk plat}.

Lemma walked_all_present a w s w' s' :
  walked a w s w' s' ->
  (forall q, on_walk a q -> is_Some (spt w !! q)) ->
  (PGSIZE | a) ->
  w' = w /\ s' = s.
Proof.
  induction 1 as [a w s N|a w s w1 s1 w' s' L Hstep Hrest IH]; intros Hall D.
  - auto.
  - assert (D' : (PGSIZE | a + PGSIZE))
      by (apply Z.divide_add_r; [exact D|apply Z.divide_refl]).
    destruct (Hall a (on_walk_self a D L)) as [e He].
    inversion Hstep; subst; try congruence.
    apply IH; [|exact D']. intros q On. apply Hall, on_walk_weaken, On.
Qed.

(** C4: a fault 4 bytes below the top of the stack in use.  The saved
    stack pointer is [boundary]; the page holding [boundary - 4] lies below
    the top stack page and has no entry, and the pages of the walk above it
    have theirs.  A not-present fault at [boundary - 4] within the stack
    limit, with a frame supplied and the mapping installed, resolves: the
    handler returns, the page table gains exactly one entry, resident and
    writable, for that page, and the page directory gains a writable
    mapping for it; nothing else changes but the frame taken and the fault
    counted. *)
Theorem stack_growth_at_boundary (boundary : Z) (m : machine) (kpage : Z)
    (rest : list (option Z)) :
  let fault_addr := boundary - 4 in
  let pg := pg_round_down fault_addr in
  not_present (tf m) = true ->
  esp (tf m) = boundary ->
  32 <= boundary ->
  PHYS_BASE - STACK_LIMIT <= fault_addr ->
  pg < PHYS_BASE - PGSIZE ->
  spt (mem m) !! pg = None ->
  (forall q, on_walk (pg + PGSIZE) q -> is_Some (spt (mem m) !! q)) ->
  frame_supply (mem m) = Some kpage :: rest ->
  install_ok (mem m) pg = true ->
  page_fault fault_addr m =
    (Ret tt, set_mem (grown pg kpage (mem m)) (counted m))
  /\ spt (mem (page_fault fault_addr m).2)
     = <[pg := new_entry pg (mem m)]> (spt (mem m))
  /\ loaded (new_entry pg (mem m)) = true
  /\ writable (new_entry pg (mem m)) = true
  /\ pagedir (mem (page_fault fault_addr m).2)
     = <[pg := (kpage, true)]> (pagedir (mem m)).
Proof.
  intros fault_addr pg Hp Hsp H32 Hlim Hlt Hnone Habove Hsup Hin.
  pose proof PGSIZE_pos as P. pose proof PHYS_BASE_hi as Bh.
  pose proof (pg_round_down_bounds fault_addr) as B. fold pg in B.
  assert (Hu : fault_addr < PHYS_BASE) by lia.
  assert (E : page_fault fault_addr m =
              (Ret tt, set_mem (grown pg kpage (mem m)) (counted m))).
  { pose proof (growth_branch_run fault_addr m Hu Hp Hnone) as G.
    cbv zeta in G.
    rewrite bring_esp_high in G by (rewrite Hsp; unfold fault_addr in *; lia).
    cbn [snd] in G. change (tf (counted m)) with (tf m) in G.
    rewrite Hsp in G.
    assert (E32 : ptr_sub boundary 32 = boundary - 32)
      by (unfold ptr_sub; apply Z.mod_small; unfold fault_addr in *; lia).
    rewrite E32 in G.
    destruct G as (s' & w' & Hrun & Hw); [unfold fault_addr; lia|exact Hlim|].
    fold pg in Hw.
    inversion Hw as [|a w s w1 s1 w2 s2 L Hstep Hrest]; subst; [contradiction|].
    assert (Ealloc : (vm_frame_alloc true (mem m)).1 = Some kpage)
      by (unfold vm_frame_alloc; rewrite Hsup; reflexivity).
    inversion Hstep; subst; try congruence.
    assert (kpage0 = kpage) by congruence. subst kpage0.
    destruct (walked_all_present _ _ _ _ _ Hrest) as [-> ->].
    - intros q On.
      assert (q <> pg) by (intros ->; apply (not_on_walk_next pg), On).
      unfold grown. cbn [spt]. rewrite lookup_insert_ne by congruence.
      apply Habove, On.
    - apply Z.divide_add_r; [apply pg_round_down_divide|apply Z.divide_refl].
    - rewrite Hrun. reflexivity. }
  rewrite E. cbn [snd mem set_mem grown spt pagedir]. auto.
Qed.

End Boundary.

(** C7: for a not-present fault on a user address found in the page
    table, the handler hands an entry that is not resident to the swap
    loader when it is swapped out and to the file loader otherwise, returns
    when the loader reports success and goes to [kill] when it reports
    failure; an entry that is already resident goes to [kill] untouched.
    This part holds for every loader.  The loaders themselves are not among
    the sources; with the loader written from the specification, an entry
    that is not resident, not swapped out and has no file gets a frame that
    was requested zeroed, mapped with the entry's [writable] flag, and the
    fault resolves. *)
Theorem backing_dispatch {plat : Platform} (cr2 : Z) (m : machine) (pg : page) :
  cr2 < PHYS_BASE ->
  not_present (tf m) = true ->
  spt (mem m) !! pg_round_down cr2 = Some pg ->
  let m1 := (bring_esp_from_thread_struct (user (tf m)) (not_present (tf m))
               (counted m)).2 in
  (forall ldr : Loader,
     page_fault (ldr:=ldr) cr2 m =
     if loaded pg then kill m1
     else
       let r := (if swaped pg then page_load_swap pg else page_load_file pg)
                  (mem m1) in
       if r.1 then (Ret tt, set_mem r.2 m1) else kill (set_mem r.2 m1))
  /\ (loaded pg = false -> swaped pg = false -> file pg = None ->
      forall kpage rest,
        frame_supply (mem m) = Some kpage :: rest ->
        install_ok (mem m) (upage pg) = true ->
        exists w',
          page_fault (ldr:=scenario_loader) cr2 m = (Ret tt, set_mem w' m1)
          /\ frame_table w' !! kpage
             = Some {| zero_filled := true; alloc_page := Some (resident pg) |}
          /\ pagedir w' !! upage pg = Some (kpage, writable pg)
          /\ spt w' !! upage pg = Some (resident pg)).
Proof.
  intros Hu Hp Hpg m1.
  assert (Hdisp : forall ldr : Loader,
     page_fault (ldr:=ldr) cr2 m =
     if loaded pg then kill m1
     else
       let r := (if swaped pg then page_load_swap pg else page_load_file pg)
                  (mem m1) in
       if r.1 then (Ret tt, set_mem r.2 m1) else kill (set_mem r.2 m1)).
  { intros ldr. apply (resolution_dispatch cr2 m pg Hu Hp Hpg). }
  split; [exact Hdisp|].
  intros Hl Hs Hf kpage rest Hsup Hin.
  assert (Emem : mem m1 = mem m) by (unfold m1; rewrite bring_esp_mem; reflexivity).
  rewrite (Hdisp scenario_loader), Hl, Hs. cbv zeta.
  cbn [page_load_file scenario_loader]. rewrite Hf, Emem.
  unfold vm_load, vm_frame_alloc. rewrite Hsup.
  unfold vm_install_page. cbn [install_ok]. rewrite Hin.
  cbn [fst snd]. eexists. split; [reflexivity|].
  unfold vm_mark_loaded, vm_set_alloc_page.
  cbn [spt pagedir frame_table upage].
  rewrite alter_insert_eq, !lookup_insert_eq. auto.
Qed.

(** A push at the boundary of a stack of two pages. *)
Lemma stack_growth_at_boundary_witness :
  let boundary := stack_top - 2 * page_bytes in
  let pg := stack_top - 3 * page_bytes in
  let w :=
    scenario_vm
      {[ stack_top - page_bytes := stack_entry (stack_top - page_bytes);
         stack_top - 2 * page_bytes := stack_entry (stack_top - 2 * page_bytes) ]}
      [Some 100] in
  let m := scenario 6 boundary w in
  pintos_page_fault (boundary - 4) m
    = (Ret tt, set_mem (grown pg 100 w) (counted m))
  /\ spt (mem (pintos_page_fault (boundary - 4) m).2)
     = <[pg := new_entry pg w]> (spt w).
Proof.
  intros boundary pg w m.
  destruct (stack_growth_at_boundary (plat:=pintos) (ldr:=scenario_loader)
              (plat_ok:=pintos_ok) boundary m 100 [])
    as (E & Es & _).
  - reflexivity.
  - reflexivity.
  - vm_compute. congruence.
  - vm_compute. congruence.
  - vm_compute. reflexivity.
  - vm_compute. reflexivity.
  - intros q [[L U] [k Hk]].
    replace (pg_round_down (plat:=pintos) (boundary - 4) + PGSIZE (Platform:=pintos))
      with 3221217280 in L by (vm_compute; reflexivity).
    change (PHYS_BASE (Platform:=pintos) - PGSIZE (Platform:=pintos))
      with (3221225472 - 4096) in U.
    change (PGSIZE (Platform:=pintos)) with 4096 in Hk.
    assert (Eq : q = 3221217280) by lia. rewrite Eq. vm_compute. eauto.
  - reflexivity.
  - reflexivity.
  - replace pg with (pg_round_down (plat:=pintos) (boundary - 4))
      by (vm_compute; reflexivity).
    split; [exact E|exact Es].
Defined.

(** An entry that is not resident, not swapped out and has no file, with a
    frame ready. *)
Lemma backing_dispatch_witness :
  let pg := stack_top - 3 * page_bytes in
  let m := scenario 6 (pg + 8)
             (scenario_vm {[ pg := zero_fill_entry pg ]} [Some 100]) in
  exists w',
    pintos_page_fault (pg + 8) m = (Ret tt, set_mem w' (counted m))
    /\ frame_table w' !! 100
       = Some {| zero_filled := true;
                 alloc_page := Some (resident (zero_fill_entry pg)) |}
    /\ pagedir w' !! pg = Some (100, true)
    /\ spt w' !! pg = Some (resident (zero_fill_entry pg)).
Proof.
  intros pg m.
  destruct (backing_dispatch (plat:=pintos) (pg + 8) m (zero_fill_entry pg))
    as [_ Hzero].
  - vm_compute. reflexivity.
  - reflexivity.
  - vm_compute. reflexivity.
  - apply (Hzero eq_refl eq_refl eq_refl 100 []); reflexivity.
Defined.
